(** * Modal: the overlay dialog of the component library

    A shallow embedding of [src/components/Modal.tsx] together with the part
    of the host it talks to: the document's [keydown] listener list, the
    inline [overflow] style of [document.body], and the children that
    portals append to [document.body].

    The component is a React function component.  Its two [useEffect] hooks
    are run by React after the rendered output has been committed to the
    DOM, in the order in which they are declared; when a dependency of an
    effect changed, the cleanup returned by its previous run is called
    before the effect runs again, and when the component is unmounted every
    pending cleanup is called.  [render_step], [mount_step] and
    [unmount_step] below spell this contract out. *)

From Stdlib Require Import String.
From stdpp Require Import gmap strings list fin_maps.

Open Scope string_scope.

(** * Responsive design utilities

    The helpers of the responsive-design module: the breakpoint table
    and the functions that build class strings from it. *)

Module Responsive.

(** [keyof typeof breakpoints]; [xxl] is the key ['2xl']. *)
Inductive Breakpoint := base | sm | md | lg | xl | xxl.

(** [breakpoints] (lines 11-24): minimum widths in pixels. *)
Definition breakpoints (b : Breakpoint) : N :=
  match b with
  | base => 0
  | sm => 640
  | md => 768
  | lg => 1024
  | xl => 1280
  | xxl => 1536
  end.

(** The keys in the order of the table. *)
Definition allBreakpoints : list Breakpoint := [base; sm; md; lg; xl; xxl].

(** [useResponsiveBreakpoint] (lines 113-120).  [window] is [None] where
    there is no [window] object (on the server), and otherwise holds
    [window.innerWidth]. *)
Definition useResponsiveBreakpoint (window : option N)
    (breakpoint : Breakpoint) : bool :=
  match window with
  | None => false
  | Some width => (breakpoints breakpoint <=? width)%N
  end.

(** [Partial<Record<keyof typeof breakpoints, string>>]: a key that is
    left out is [None]. *)
Record ResponsiveClasses := mkResponsive {
  at_base : option string;
  at_sm : option string;
  at_md : option string;
  at_lg : option string;
  at_xl : option string;
  at_2xl : option string
}.

(** [if (v)] for an optional string: neither [undefined] nor empty. *)
Definition truthy (v : option string) : bool :=
  match v with
  | Some (String _ _) => true
  | _ => false
  end.

(** [if (v) classes.push(`${prefix}:${v}`)] *)
Definition pushIf (v : option string) (prefix : string)
    (classes : list string) : list string :=
  match v with
  | Some c => if truthy v
              then (classes ++ [(prefix ++ ":" ++ c)%string])%list
              else classes
  | None => classes
  end.

(** [buildResponsiveClasses] (lines 126-139); [classes.join(' ')] is
    [String.concat]. *)
Definition buildResponsiveClasses (base0 : string)
    (responsive : ResponsiveClasses) : string :=
  let classes := [base0] in
  let classes := pushIf (at_sm responsive) "sm" classes in
  let classes := pushIf (at_md responsive) "md" classes in
  let classes := pushIf (at_lg responsive) "lg" classes in
  let classes := pushIf (at_xl responsive) "xl" classes in
  let classes := pushIf (at_2xl responsive) "2xl" classes in
  String.concat " " classes.

Section GridColumns.
(** JavaScript numbers: how one is printed inside a template literal, and
    which ones are truthy (all but [0] and [NaN]). *)
Context {number : Type} (toString : number → string)
        (truthyNumber : number → bool).

(** [if (n) classes.push(`${prefix}grid-cols-${n}`)] for an optional
    number. *)
Definition pushColumns (n : option number) (prefix : string)
    (classes : list string) : list string :=
  match n with
  | Some c => if truthyNumber c
              then (classes
                    ++ [(prefix ++ "grid-cols-" ++ toString c)%string])%list
              else classes
  | None => classes
  end.

(** [getGridColumns] (lines 144-155). *)
Definition getGridColumns (mobileColumns : number)
    (tabletColumns desktopColumns : option number) : string :=
  let classes := ["grid-cols-" ++ toString mobileColumns] in
  let classes := pushColumns tabletColumns "sm:" classes in
  let classes := pushColumns desktopColumns "md:" classes in
  String.concat " " classes.
End GridColumns.

(** An optional string with empty treated as left out. *)
Definition dropEmpty (v : option string) : option string :=
  if truthy v then v else None.

End Responsive.

(** * The modal *)

(** ** Data model *)

Module Modal.

(** [size?: 'sm' | 'md' | 'lg' | 'xl'] *)
Inductive Size := sm | md | lg | xl.

(** A caller-supplied [() => void]; two callbacks are the same JavaScript
    object exactly when they carry the same number. *)
Definition Callback := nat.

(** An opaque [ReactNode] handed in by the caller. *)
Definition ReactNode := string.

(** A mounted component instance. *)
Definition InstId := nat.

(** [interface ModalProps]; an optional property that the caller leaves
    out is [None]. *)
Record ModalProps := mkProps {
  isOpen : bool;
  onClose : Callback;
  title : option string;
  children : ReactNode;
  footer : option ReactNode;
  size : option Size;
  closeOnBackdropClick : option bool;
  closeOnEscapeKey : option bool
}.

(** The destructuring defaults of the parameter list:
    [size = 'md'], [closeOnBackdropClick = true], [closeOnEscapeKey = true]. *)
Definition size_of (p : ModalProps) : Size := default md (size p).
Definition shouldDismissOnBackdrop (p : ModalProps) : bool :=
  default true (closeOnBackdropClick p).
Definition shouldDismissOnEscape (p : ModalProps) : bool :=
  default true (closeOnEscapeKey p).

(** ** The host document *)

(** The closure [handleEscape] created by one run of the first effect.
    [l_id] is its object identity, [l_onClose] the captured [onClose];
    [l_owner] records which instance created it. *)
Record Listener := mkListener {
  l_id : nat;
  l_owner : InstId;
  l_onClose : Callback
}.

#[global] Instance Listener_eq_dec : EqDecision Listener.
Proof. solve_decision. Defined.

(** The click handlers that the rendered tree installs, as closures over
    the values they capture. *)
Inductive ClickHandler :=
  | HandleBackdropClick (flag : bool) (cb : Callback)
  | HandleModalClick
  | CloseButtonClick (cb : Callback).

(** Rendered output. *)
#[local] Unset Elimination Schemes.
Inductive Element :=
  | Elem (tag : string) (className : string)
         (onClick : option ClickHandler) (kids : list Element)
  | Text (s : string)
  | Slot (n : ReactNode).
#[local] Set Elimination Schemes.

(** Everything the component does to the outside, in the order it is done. *)
Inductive Effect :=
  | EvRoute (i : InstId)
  | EvUnroute (i : InstId)
  | EvListen (l : Listener)
  | EvUnlisten (l : Listener)
  | EvOverflow (s : string)
  | EvCall (i : InstId) (cb : Callback).

Record Host := mkHost {
  overflow : string;                      (* document.body.style.overflow *)
  keydown : list Listener;                (* document's keydown listeners *)
  bodyChildren : list (InstId * Element); (* portal children of document.body *)
  fresh : nat;                            (* next closure identity *)
  log : list Effect                       (* oldest first *)
}.

Definition emit (e : Effect) (h : Host) : Host :=
  mkHost (overflow h) (keydown h) (bodyChildren h) (fresh h) (log h ++ [e]).

(** [document.body.style.overflow = s] *)
Definition setOverflow (s : string) (h : Host) : Host :=
  emit (EvOverflow s)
       (mkHost s (keydown h) (bodyChildren h) (fresh h) (log h)).

(** [document.addEventListener('keydown', l)]: a listener that is already
    registered is not registered a second time. *)
Definition addEventListener (l : Listener) (h : Host) : Host :=
  if decide (l ∈ keydown h) then h
  else emit (EvListen l)
            (mkHost (overflow h) (keydown h ++ [l]) (bodyChildren h)
                    (fresh h) (log h)).

Fixpoint remove_first (l : Listener) (ls : list Listener) : list Listener :=
  match ls with
  | [] => []
  | x :: rest => if decide (x = l) then rest else x :: remove_first l rest
  end.

(** [document.removeEventListener('keydown', l)] *)
Definition removeEventListener (l : Listener) (h : Host) : Host :=
  if decide (l ∈ keydown h) then
    emit (EvUnlisten l)
         (mkHost (overflow h) (remove_first l (keydown h)) (bodyChildren h)
                 (fresh h) (log h))
  else h.

(** Calling a caller-supplied callback.  What the caller does in it is the
    caller's business; the call itself is recorded. *)
Definition invoke (i : InstId) (cb : Callback) (h : Host) : Host :=
  emit (EvCall i cb) h.

(** Allocation of a new closure. *)
Definition newClosure (h : Host) : nat * Host :=
  (fresh h,
   mkHost (overflow h) (keydown h) (bodyChildren h) (S (fresh h)) (log h)).

(** ** The component *)

(** The first effect (lines 31-44), run for instance [i] with the values
    of the current render.  It returns the host after the effect and the
    closure that its cleanup will remove, if it returned a cleanup. *)
Definition effectEscape (i : InstId) (p : ModalProps) (h : Host)
  : Host * option Listener :=
  if negb (isOpen p) then (h, None)
  else if shouldDismissOnEscape p then
    let '(k, h1) := newClosure h in
    let handleEscape := mkListener k i (onClose p) in
    (addEventListener handleEscape h1, Some handleEscape)
  else (h, None).

(** [() => document.removeEventListener('keydown', handleEscape)] *)
Definition cleanupEscape (c : option Listener) (h : Host) : Host :=
  match c with
  | Some handleEscape => removeEventListener handleEscape h
  | None => h
  end.

(** The body of [handleEscape] (lines 36-40). *)
Definition handleEscape (l : Listener) (key : string) (h : Host) : Host :=
  if decide (key = "Escape") then invoke (l_owner l) (l_onClose l) h else h.

(** The second effect (lines 46-54); the boolean tells whether it returned
    a cleanup. *)
Definition effectScroll (p : ModalProps) (h : Host) : Host * bool :=
  if isOpen p then (setOverflow "hidden" h, true) else (h, false).

(** [() => { document.body.style.overflow = 'unset' }] *)
Definition cleanupScroll (c : bool) (h : Host) : Host :=
  if c then setOverflow "unset" h else h.

(** [sizeStyles] (lines 58-63). *)
Definition sizeStyles (s : Size) : string :=
  match s with
  | sm => "max-w-sm"
  | md => "max-w-md"
  | lg => "max-w-lg"
  | xl => "max-w-xl"
  end.

(** [cond && jsx] inside JSX: nothing is rendered for a falsy [cond]. *)
Definition when (b : bool) (e : Element) : list Element :=
  if b then [e] else [].

(** A string is truthy when it is not empty. *)
Definition truthy (s : string) : bool :=
  match s with EmptyString => false | _ => true end.

Definition header (t : string) : Element :=
  Elem "div" "border-b border-gray-200 px-6 py-4 dark:border-gray-800" None
    [Elem "h2" "text-xl font-semibold text-gray-900 dark:text-white" None
       [Text t]].

Definition closeIcon : Element :=
  Elem "svg" "h-6 w-6" None [Elem "path" "" None []].

(** The close button (lines 110-129): [onClick={onClose}]. *)
Definition closeButton (p : ModalProps) : Element :=
  Elem "button"
    "absolute right-4 top-4 rounded-lg p-1 text-gray-500 transition-colors hover:bg-gray-100 hover:text-gray-900 dark:hover:bg-gray-800 dark:hover:text-white"
    (Some (CloseButtonClick (onClose p))) [closeIcon].

(** [{title && (...)}] (lines 90-99). *)
Definition headerPart (p : ModalProps) : list Element :=
  match title p with
  | Some t => when (truthy t) (header t)
  | None => []
  end.

(** The body (line 102). *)
Definition bodyPart (p : ModalProps) : Element :=
  Elem "div" "px-6 py-4" None [Slot (children p)].

(** [{footer && (...)}] (lines 105-107). *)
Definition footerPart (p : ModalProps) : list Element :=
  match footer p with
  | Some f =>
      when (truthy f)
        (Elem "div" "border-t border-gray-200 px-6 py-4 dark:border-gray-800"
           None [Slot f])
  | None => []
  end.

(** The inner [div role="dialog"] (lines 81-130). *)
Definition dialog (p : ModalProps) : Element :=
  Elem "div"
    ("w-full " ++ sizeStyles (size_of p)
       ++ " rounded-lg bg-white shadow-lg dark:bg-gray-900 max-h-[90vh] overflow-y-auto")
    (Some HandleModalClick)
    (headerPart p ++ [bodyPart p] ++ footerPart p ++ [closeButton p]).

(** [modalContent] (lines 75-132): the backdrop with the dialog inside. *)
Definition modalContent (p : ModalProps) : Element :=
  Elem "div"
    "fixed inset-0 z-50 flex items-center justify-center bg-black/50 transition-opacity duration-200"
    (Some (HandleBackdropClick (shouldDismissOnBackdrop p) (onClose p)))
    [dialog p].

(** What the component returns: [null] when closed (line 56), otherwise a
    portal into [document.body] holding [modalContent] (lines 135-136). *)
Definition Modal (p : ModalProps) : option Element :=
  if negb (isOpen p) then None else Some (modalContent p).

(** ** Click dispatch *)

Record ClickEvent := mkClick { propagationStopped : bool }.

(** [handleBackdropClick] (lines 65-69). *)
Definition handleBackdropClick (i : InstId) (flag : bool) (cb : Callback)
    (e : ClickEvent) (h : Host) : ClickEvent * Host :=
  if flag then (e, invoke i cb h) else (e, h).

(** [handleModalClick] (lines 71-73): [e.stopPropagation()]. *)
Definition handleModalClick (e : ClickEvent) (h : Host) : ClickEvent * Host :=
  (mkClick true, h).

Definition runHandler (i : InstId) (k : ClickHandler)
    (e : ClickEvent) (h : Host) : ClickEvent * Host :=
  match k with
  | HandleBackdropClick flag cb => handleBackdropClick i flag cb e h
  | HandleModalClick => handleModalClick e h
  | CloseButtonClick cb => (e, invoke i cb h)
  end.

Definition onClick_of (e : Element) : option ClickHandler :=
  match e with
  | Elem _ _ k _ => k
  | _ => None
  end.

Definition kids_of (e : Element) : list Element :=
  match e with
  | Elem _ _ _ ks => ks
  | _ => []
  end.

(** The elements from [e] down to the element that [path] (child indices)
    leads to, outermost first; [None] when the path leaves the tree. *)
Fixpoint ancestry (e : Element) (path : list nat) : option (list Element) :=
  match path with
  | [] => Some [e]
  | k :: rest =>
      match kids_of e !! k with
      | Some c => (e ::.) <$> ancestry c rest
      | None => None
      end
  end.

(** Bubbling: the handlers run from the target outwards until one of them
    stops the propagation. *)
Fixpoint bubble (i : InstId) (chain : list Element)
    (e : ClickEvent) (h : Host) : Host :=
  match chain with
  | [] => h
  | x :: outer =>
      match onClick_of x with
      | Some k =>
          let '(e', h') := runHandler i k e h in
          if propagationStopped e' then h' else bubble i outer e' h'
      | None => bubble i outer e h
      end
  end.

(** A click on the element at [path] inside the tree [root] rendered by
    instance [i]. *)
Definition click (i : InstId) (root : Element) (path : list nat)
    (h : Host) : Host :=
  match ancestry root path with
  | Some chain => bubble i (rev chain) (mkClick false) h
  | None => h
  end.

(** A key press: every registered listener is called, in registration
    order. *)
Definition dispatchKeydown (key : string) (h : Host) : Host :=
  foldl (fun acc l => handleEscape l key acc) h (keydown h).

(** ** React: mounting, re-rendering and unmounting an instance *)

(** What React keeps for a mounted instance: the props of its last render
    and, for each of the two effects, the cleanup that is pending. *)
Record Fiber := mkFiber {
  props : ModalProps;
  escapeCleanup : option Listener;
  scrollCleanup : bool
}.

Record World := mkWorld {
  host : Host;
  fibers : gmap InstId Fiber;
  nextId : InstId
}.

Definition routed (i : InstId) (h : Host) : bool :=
  bool_decide (i ∈ (bodyChildren h).*1).

Definition setChildren (cs : list (InstId * Element)) (h : Host) : Host :=
  mkHost (overflow h) (keydown h) cs (fresh h) (log h).

(** The DOM commit of one render: [createPortal(modalContent,
    document.body)] appends the content to the body when the instance had
    none there and updates it in place otherwise; a [null] render removes
    it. *)
Definition commitPortal (i : InstId) (out : option Element) (h : Host)
  : Host :=
  match out with
  | Some c =>
      if routed i h then
        setChildren
          ((fun x => if decide (x.1 = i) then (i, c) else x)
             <$> bodyChildren h) h
      else emit (EvRoute i) (setChildren (bodyChildren h ++ [(i, c)]) h)
  | None =>
      if routed i h then
        emit (EvUnroute i)
          (setChildren (filter (fun x => x.1 ≠ i) (bodyChildren h)) h)
      else h
  end.

(** The dependency arrays: [[isOpen, onClose, closeOnEscapeKey]] and
    [[isOpen]]. *)
Definition escapeDeps (p : ModalProps) : bool * Callback * bool :=
  (isOpen p, onClose p, shouldDismissOnEscape p).
Definition scrollDeps (p : ModalProps) : bool := isOpen p.

Definition mount_step (p : ModalProps) (w : World) : World :=
  let i := nextId w in
  let h0 := commitPortal i (Modal p) (host w) in
  let '(h1, c1) := effectEscape i p h0 in
  let '(h2, c2) := effectScroll p h1 in
  mkWorld h2 (<[i := mkFiber p c1 c2]> (fibers w)) (S i).

Definition render_step (i : InstId) (p : ModalProps) (w : World) : World :=
  match fibers w !! i with
  | None => w
  | Some f =>
      let h0 := commitPortal i (Modal p) (host w) in
      let changed1 := bool_decide (escapeDeps (props f) ≠ escapeDeps p) in
      let changed2 := bool_decide (scrollDeps (props f) ≠ scrollDeps p) in
      let h1 := if changed1 then cleanupEscape (escapeCleanup f) h0 else h0 in
      let h2 := if changed2 then cleanupScroll (scrollCleanup f) h1 else h1 in
      let '(h3, c1) :=
        if changed1 then effectEscape i p h2 else (h2, escapeCleanup f) in
      let '(h4, c2) :=
        if changed2 then effectScroll p h3 else (h3, scrollCleanup f) in
      mkWorld h4 (<[i := mkFiber p c1 c2]> (fibers w)) (nextId w)
  end.

Definition unmount_step (i : InstId) (w : World) : World :=
  match fibers w !! i with
  | None => w
  | Some f =>
      let h0 := commitPortal i None (host w) in
      let h1 := cleanupEscape (escapeCleanup f) h0 in
      let h2 := cleanupScroll (scrollCleanup f) h1 in
      mkWorld h2 (delete i (fibers w)) (nextId w)
  end.

(** ** Executions *)

Inductive Action :=
  | Mount (p : ModalProps)
  | Render (i : InstId) (p : ModalProps)
  | Unmount (i : InstId)
  | KeyDown (key : string)
  | Click (i : InstId) (path : list nat).

Definition onHost (f : Host -> Host) (w : World) : World :=
  mkWorld (f (host w)) (fibers w) (nextId w).

Definition step (w : World) (a : Action) : World :=
  match a with
  | Mount p => mount_step p w
  | Render i p => render_step i p w
  | Unmount i => unmount_step i w
  | KeyDown key => onHost (dispatchKeydown key) w
  | Click i path =>
      match list_find (fun x => x.1 = i) (bodyChildren (host w)) with
      | Some (_, (_, root)) => onHost (click i root path) w
      | None => w
      end
  end.

Definition run (w : World) (acts : list Action) : World := foldl step w acts.

(** A page on which no instance has been mounted yet; [s0] is the inline
    [overflow] style the page came with. *)
Definition init (s0 : string) : World :=
  mkWorld (mkHost s0 [] [] 0 []) ∅ 0.

(** ** Observations *)

(** The number of mounted instances for which [P] holds. *)
Definition countIf (P : Fiber → bool) (m : gmap InstId Fiber) : nat :=
  length (filter (fun f => P f = true) (map_to_list m).*2).


Definition openCount (w : World) : nat :=
  countIf (fun f => isOpen (props f)) (fibers w).

Definition openEscapeCount (w : World) : nat :=
  countIf (fun f => isOpen (props f) && shouldDismissOnEscape (props f))
          (fibers w).


(** The callbacks called, oldest first. *)
Definition calls (h : Host) : list (InstId * Callback) :=
  omap (fun e => match e with EvCall i cb => Some (i, cb) | _ => None end)
       (log h).

Definition callsOf (i : InstId) (h : Host) : list Callback :=
  (filter (fun x => x.1 = i) (calls h)).*2.

(** The overflow writes among some recorded effects. *)
Definition writesOf (es : list Effect) : list string :=
  omap (fun e => match e with EvOverflow s => Some s | _ => None end) es.

Definition overflowWrites (h : Host) : list string := writesOf (log h).

Definition bool_nat (b : bool) : nat := if b then 1 else 0.

(** The host after the callbacks [cs] have been called, and nothing else
    has happened. *)
Definition addCalls (cs : list (InstId * Callback)) (h : Host) : Host :=
  mkHost (overflow h) (keydown h) (bodyChildren h) (fresh h)
         (log h ++ ((fun c => EvCall c.1 c.2) <$> cs)).

(** A subtree in which the component installs no click handler. *)
Fixpoint inert (e : Element) : bool :=
  match e with
  | Elem _ _ None ks => forallb inert ks
  | Elem _ _ (Some _) _ => false
  | _ => true
  end.

(** The close button is the last child of the dialog. *)
Definition closeButtonIndex (p : ModalProps) : nat :=
  length (kids_of (dialog p)) - 1.

(** What one DOM commit records: a portal that appears, one that
    disappears, or nothing. *)
Definition portalEvents (i : InstId) (was : bool) (out : option Element)
  : list Effect :=
  match out, was with
  | Some _, false => [EvRoute i]
  | None, true => [EvUnroute i]
  | _, _ => []
  end.

Definition whenE (b : bool) (es : list Effect) : list Effect :=
  if b then es else [].

(** The inline style is what was written last, or what the page came
    with. *)
Definition ovOK (s0 : string) (h : Host) : Prop :=
  overflow h = default s0 (last (overflowWrites h)).

(** The last write is ['unset'], unless an instance is open. *)
Definition lastWriteOK (w : World) : Prop :=
  ∀ s, last (overflowWrites (host w)) = Some s →
       s = "unset" ∨ (s = "hidden" ∧ 0 < openCount w).

(** ** Invariants of executions *)

(** The closure that one run of the first effect creates and registers. *)
Definition escapeClosure (i : InstId) (p : ModalProps) (h : Host)
  : option Listener :=
  if isOpen p && shouldDismissOnEscape p
  then Some (mkListener (fresh h) i (onClose p)) else None.

(** Closure identities at or above [fresh] have not been handed out. *)
Definition freshBound (h : Host) : Prop :=
  Forall (fun l => l_id l < fresh h) (keydown h).

(** What React holds for instance [i] agrees with the props of its last
    render: the second effect has a cleanup pending exactly when the
    instance is open, the first one exactly when it is open and dismisses
    on Escape, and the closure to remove is the instance's own and calls
    the current [onClose]. *)
Definition fiberOK (i : InstId) (f : Fiber) : Prop :=
  scrollCleanup f = isOpen (props f) ∧
  match escapeCleanup f with
  | Some l =>
      isOpen (props f) = true ∧ shouldDismissOnEscape (props f) = true
      ∧ l_owner l = i ∧ l_onClose l = onClose (props f)
  | None => isOpen (props f) && shouldDismissOnEscape (props f) = false
  end.

Definition heldBy (x : InstId * Fiber) : option Listener := escapeCleanup x.2.
Definition portalOf (x : InstId * Fiber) : option (InstId * Element) :=
  (x.1,.) <$> Modal (props x.2).

Record Inv (w : World) : Prop := mkInv {
  inv_ids : ∀ i f, fibers w !! i = Some f → i < nextId w;
  inv_fiber : ∀ i f, fibers w !! i = Some f → fiberOK i f;
  inv_fresh : freshBound (host w);
  inv_keydown : keydown (host w) ≡ₚ omap heldBy (map_to_list (fibers w));
  inv_body : bodyChildren (host w) ≡ₚ omap portalOf (map_to_list (fibers w))
}.

(** ** Scenarios and the properties of the specification *)

(** The caller's [setOpen(b)]: the same props with another [isOpen]. *)
Definition setOpen (b : bool) (p : ModalProps) : ModalProps :=
  mkProps b (onClose p) (title p) (children p) (footer p) (size p)
          (closeOnBackdropClick p) (closeOnEscapeKey p).

(** The worlds an execution passes through, the starting one first. *)
Fixpoint trace (w : World) (acts : list Action) : list World :=
  w :: match acts with
       | [] => []
       | a :: rest => trace (step w a) rest
       end.


(** The modal of the usage guide: only the required props and a title. *)
Definition demo : ModalProps :=
  mkProps true 7 (Some "Confirm Action") "Are you sure?" None None None None.

Definition demoNoEscape : ModalProps :=
  mkProps true 7 (Some "Confirm Action") "Are you sure?" None None None
          (Some false).

Definition demoNoDismiss : ModalProps :=
  mkProps true 7 (Some "Confirm Action") "Are you sure?" None None
          (Some false) (Some false).

Definition openThenClose : list Action :=
  [Mount demo; Render 0 (setOpen false demo)].



(** The order of section 4.1 for an opening instance: lock, listener,
    mount. *)
Definition specOpenOrder (i : InstId) (l : option Listener) : list Effect :=
  [EvOverflow "hidden"] ++ option_list (EvListen <$> l) ++ [EvRoute i].

Definition OpenOrder (s0 : string) (p : ModalProps) : Prop :=
  log (host (step (init s0) (Mount p)))
  = specOpenOrder 0 (escapeClosure 0 p (host (init s0))).

(** The consequence drawn in section 5, as worded: no key listener is
    registered, and no content is in the body, unless the scroll lock is
    active, that is, unless the overflow style is ['hidden']. *)
Definition NeverWithoutLock (w : World) : Prop :=
  (keydown (host w) ≠ [] → overflow (host w) = "hidden")
  ∧ (bodyChildren (host w) ≠ [] → overflow (host w) = "hidden").

(** The invariant of section 4.1 as worded: while an instance is open the
    scroll lock exists, that is, the overflow style is ['hidden']; and the
    instance has a key listener registered exactly when it is open and
    dismisses on Escape. *)
Definition LockAndListenerIffOpen (w : World) : Prop :=
  ∀ i f, fibers w !! i = Some f →
         (isOpen (props f) = true → overflow (host w) = "hidden")
         ∧ ((∃ l, l ∈ keydown (host w) ∧ l_owner l = i)
            ↔ isOpen (props f) = true
              ∧ shouldDismissOnEscape (props f) = true).

(** No two instances are open together at any point of an execution. *)
Definition unstacked (s0 : string) (acts : list Action) : Prop :=
  Forall (fun v => (openCount v ≤ 1)%nat) (trace (init s0) acts).

(** Two modals of the usage guide are opened, then the second is closed. *)
Definition stackedThenOne : list Action :=
  [Mount demo; Mount demo; Render 1 (setOpen false demo)].

(** The closure that instance [i] registers when it opens with [p]. *)
Definition listenerOf (i : InstId) (p : ModalProps) (h : Host) : Listener :=
  mkListener (fresh h) i (onClose p).

(** What the code records when instance [i] opens with props [p], and
    when an open instance with fiber [f] closes. *)
Definition openEffects (i : InstId) (p : ModalProps) (h : Host)
  : list Effect :=
  [EvRoute i]
  ++ whenE (shouldDismissOnEscape p) [EvListen (listenerOf i p h)]
  ++ [EvOverflow "hidden"].

Definition closeEffects (i : InstId) (f : Fiber) : list Effect :=
  [EvUnroute i]
  ++ option_list (EvUnlisten <$> escapeCleanup f)
  ++ [EvOverflow "unset"].

(** The same props with [closeOnBackdropClick] given. *)
Definition setBackdrop (b : bool) (p : ModalProps) : ModalProps :=
  mkProps (isOpen p) (onClose p) (title p) (children p) (footer p) (size p)
          (Some b) (closeOnEscapeKey p).

(** The user's ways of asking for dismissal. *)
Definition isEvent (a : Action) : bool :=
  match a with
  | KeyDown _ | Click _ _ => true
  | _ => false
  end.

(** ** A caller: the modal of [ComponentShowcase] *)

(** The part of the page's state that concerns the modal: [isModalOpen]
    (line 335), the number of renders of the page so far, and the page.
    Every render of the page creates a new [() => setIsModalOpen(false)]
    for [onClose] (line 827); the render count names it. *)
Record Showcase := mkShowcase {
  isModalOpen : bool;
  renders : nat;
  page : World
}.

(** The props the page passes (lines 825-866): a title, children and a
    footer, no [size] and neither dismissal flag. *)
Definition showcaseModal (b : bool) (cb : Callback) : ModalProps :=
  mkProps b cb (Some "Welcome to Component Library")
          "This is a demonstration of our reusable UI component library."
          (Some "Close | Got it!") None None None.

(** The page is mounted with the modal closed; the modal is instance 0. *)
Definition mountShowcase (s0 : string) : Showcase :=
  mkShowcase false 1 (step (init s0) (Mount (showcaseModal false 0))).

(** One more render of the page, with [isModalOpen] being [b]. *)
Definition rerender (b : bool) (s : Showcase) : Showcase :=
  mkShowcase b (S (renders s))
             (step (page s) (Render 0 (showcaseModal b (renders s)))).

(** [setIsModalOpen(b)]: React renders again only if the state changes. *)
Definition setIsModalOpen (b : bool) (s : Showcase) : Showcase :=
  if bool_decide (isModalOpen s = b) then s else rerender b s.

(** A key press or a click that reaches the modal: its handlers run, and
    since every [onClose] of the page is [() => setIsModalOpen(false)],
    any call of one sets the state to false. *)
Definition dispatch (a : Action) (s : Showcase) : Showcase :=
  let w' := step (page s) a in
  let s' := mkShowcase (isModalOpen s) (renders s) w' in
  if bool_decide (calls (host w') = calls (host (page s))) then s'
  else setIsModalOpen false s'.

(** What the user can do.  [ClickModal path] is a click on an element of
    the modal's own tree; the caller's nodes inside its slots are not part
    of that tree, and a click on one of the two buttons that the page
    puts into the footer is [ClickFooterButton]. *)
Inductive UserEvent :=
  | ClickOpenButton            (* either button of lines 760-761 *)
  | ClickFooterButton          (* either button of lines 831-840 *)
  | OtherStateChange           (* setFormData, setIsLoading *)
  | PressKey (key : string)
  | ClickModal (path : list nat).

Definition showcaseStep (s : Showcase) (e : UserEvent) : Showcase :=
  match e with
  | ClickOpenButton => setIsModalOpen true s
  | ClickFooterButton =>
      if isModalOpen s then setIsModalOpen false s else s
  | OtherStateChange => rerender (isModalOpen s) s
  | PressKey key => dispatch (KeyDown key) s
  | ClickModal path => dispatch (Click 0 path) s
  end.

Definition runShowcase (s0 : string) (evs : list UserEvent) : Showcase :=
  foldl showcaseStep (mountShowcase s0) evs.

(** The four ways of dismissing the open modal: Escape, a click on the
    backdrop, a click on the close button (the fourth child of the
    dialog, after header, body and footer), and the footer's buttons. *)
Definition isDismissal (e : UserEvent) : bool :=
  match e with
  | ClickFooterButton => true
  | PressKey key => bool_decide (key = "Escape")
  | ClickModal [] => true
  | ClickModal [0; 3] => true
  | _ => false
  end.

(** What holds of the page between user events. *)
Record ShowcaseInv (s0 : string) (s : Showcase) : Prop := mkShowcaseInv {
  sc_reach : ∃ acts, page s = run (init s0) acts;
  sc_fiber : ∃ f k, fibers (page s) = {[0 := f]}
                    ∧ props f = showcaseModal (isModalOpen s) k
                    ∧ k < renders s;
  sc_hidden : isModalOpen s = true → overflow (host (page s)) = "hidden"
}.

(** * Proofs *)

#[local] Open Scope list_scope.
#[local] Arguments commitPortal : simpl never.

(** ** The host operations, field by field *)

Section host_fields.
Implicit Types (h : Host) (l : Listener) (i : InstId) (p : ModalProps).

Lemma remove_first_notin l ls : l ∉ ls → remove_first l ls = ls.
Proof.
  induction ls as [|x ls IH]; simpl; [done|].
  intros Hn. apply not_elem_of_cons in Hn as [Hx Hl].
  destruct (decide (x = l)); [congruence|]. by rewrite IH.
Qed.

Lemma remove_first_perm l ls : l ∈ ls → ls ≡ₚ l :: remove_first l ls.
Proof.
  induction ls as [|x ls IH]; simpl; [by intros ?%elem_of_nil|].
  destruct (decide (x = l)) as [->|Hne]; [done|].
  intros [?|Hin]%elem_of_cons; [congruence|].
  rewrite (IH Hin) at 1. apply perm_swap.
Qed.

Lemma keydown_removeEventListener l h :
  keydown (removeEventListener l h) = remove_first l (keydown h).
Proof.
  unfold removeEventListener. destruct (decide _); simpl; [done|].
  by rewrite remove_first_notin.
Qed.

Lemma keydown_commitPortal i out h :
  keydown (commitPortal i out h) = keydown h.
Proof. unfold commitPortal. by destruct out, (routed i h). Qed.

Lemma fresh_commitPortal i out h : fresh (commitPortal i out h) = fresh h.
Proof. unfold commitPortal. by destruct out, (routed i h). Qed.

Lemma overflow_commitPortal i out h :
  overflow (commitPortal i out h) = overflow h.
Proof. unfold commitPortal. by destruct out, (routed i h). Qed.

Lemma keydown_cleanupScroll c h : keydown (cleanupScroll c h) = keydown h.
Proof. by destruct c. Qed.

Lemma fresh_cleanupScroll c h : fresh (cleanupScroll c h) = fresh h.
Proof. by destruct c. Qed.

Lemma bodyChildren_cleanupScroll c h :
  bodyChildren (cleanupScroll c h) = bodyChildren h.
Proof. by destruct c. Qed.

Lemma keydown_effectScroll p h : keydown (effectScroll p h).1 = keydown h.
Proof. unfold effectScroll. by destruct (isOpen p). Qed.

Lemma fresh_effectScroll p h : fresh (effectScroll p h).1 = fresh h.
Proof. unfold effectScroll. by destruct (isOpen p). Qed.

Lemma bodyChildren_effectScroll p h :
  bodyChildren (effectScroll p h).1 = bodyChildren h.
Proof. unfold effectScroll. by destruct (isOpen p). Qed.

Lemma effectScroll_snd p h : (effectScroll p h).2 = isOpen p.
Proof. unfold effectScroll. by destruct (isOpen p). Qed.

Lemma fresh_cleanupEscape c h : fresh (cleanupEscape c h) = fresh h.
Proof.
  destruct c as [l|]; simpl; [|done].
  unfold removeEventListener. by destruct (decide _).
Qed.

Lemma bodyChildren_cleanupEscape c h :
  bodyChildren (cleanupEscape c h) = bodyChildren h.
Proof.
  destruct c as [l|]; simpl; [|done].
  unfold removeEventListener. by destruct (decide _).
Qed.

Lemma overflow_cleanupEscape c h :
  overflow (cleanupEscape c h) = overflow h.
Proof.
  destruct c as [l|]; simpl; [|done].
  unfold removeEventListener. by destruct (decide _).
Qed.

Lemma bodyChildren_effectEscape i p h :
  bodyChildren (effectEscape i p h).1 = bodyChildren h.
Proof.
  unfold effectEscape.
  destruct (isOpen p), (shouldDismissOnEscape p); simpl; try done.
  unfold addEventListener. by destruct (decide _).
Qed.

Lemma overflow_effectEscape i p h :
  overflow (effectEscape i p h).1 = overflow h.
Proof.
  unfold effectEscape.
  destruct (isOpen p), (shouldDismissOnEscape p); simpl; try done.
  unfold addEventListener. by destruct (decide _).
Qed.

Lemma effectEscape_snd i p h : (effectEscape i p h).2 = escapeClosure i p h.
Proof.
  unfold effectEscape, escapeClosure.
  by destruct (isOpen p), (shouldDismissOnEscape p).
Qed.

Lemma freshBound_notin i cb h :
  freshBound h → mkListener (fresh h) i cb ∉ keydown h.
Proof.
  intros Hb Hin. eapply Forall_forall in Hb; [|done]. simpl in Hb. lia.
Qed.

Lemma keydown_effectEscape i p h :
  freshBound h →
  keydown (effectEscape i p h).1
  = keydown h ++ option_list (escapeClosure i p h).
Proof.
  intros Hb. unfold effectEscape, escapeClosure.
  destruct (isOpen p), (shouldDismissOnEscape p); simpl;
    try by rewrite app_nil_r.
  unfold addEventListener. simpl.
  destruct (decide _) as [Hin|]; [|done].
  by apply freshBound_notin in Hin.
Qed.

Lemma freshBound_effectEscape i p h :
  freshBound h → freshBound (effectEscape i p h).1.
Proof.
  intros Hb. unfold freshBound. rewrite keydown_effectEscape by done.
  unfold effectEscape, escapeClosure.
  destruct (isOpen p), (shouldDismissOnEscape p); simpl;
    rewrite ?app_nil_r; try done.
  unfold addEventListener. simpl.
  destruct (decide _); simpl.
  - apply Forall_app; split; [|by repeat constructor; simpl; lia].
    eapply Forall_impl; [done|]. simpl. lia.
  - apply Forall_app; split; [|by repeat constructor; simpl; lia].
    eapply Forall_impl; [done|]. simpl. lia.
Qed.

Lemma freshBound_remove l h :
  freshBound h → freshBound (cleanupEscape (Some l) h).
Proof.
  unfold freshBound. simpl. rewrite keydown_removeEventListener.
  unfold removeEventListener.
  destruct (decide (l ∈ keydown h)) as [Hin|Hn]; simpl.
  - intros Hb. rewrite (remove_first_perm _ _ Hin) in Hb.
    by apply Forall_cons in Hb as [_ ?].
  - by rewrite remove_first_notin.
Qed.

Lemma cleanupEscape_perm c h (K : list Listener) :
  keydown h ≡ₚ option_list c ++ K → keydown (cleanupEscape c h) ≡ₚ K.
Proof.
  destruct c as [l|]; simpl; [|done].
  rewrite keydown_removeEventListener. intros HP.
  assert (l ∈ keydown h) as Hin by (rewrite HP; left).
  rewrite (remove_first_perm _ _ Hin) in HP.
  by apply Permutation_cons_inv in HP.
Qed.

Lemma freshBound_cleanupEscape c h :
  freshBound h → freshBound (cleanupEscape c h).
Proof. destruct c; [apply freshBound_remove|done]. Qed.

Lemma routed_perm i h (B : list (InstId * Element)) (old : option Element) :
  bodyChildren h ≡ₚ option_list ((i,.) <$> old) ++ B →
  Forall (fun x => x.1 ≠ i) B →
  routed i h = bool_decide (is_Some old).
Proof.
  intros HP HB. unfold routed. apply bool_decide_ext.
  rewrite HP, fmap_app, elem_of_app. split.
  - intros [Hin|Hin].
    + destruct old; [by eexists|]. by apply elem_of_nil in Hin.
    + apply list_elem_of_fmap in Hin as (x & -> & Hx).
      eapply Forall_forall in HB; [|done]. done.
  - intros [c ->]. left. simpl. left.
Qed.

Lemma filter_keep {A} (P : A → Prop) `{!∀ x, Decision (P x)} (xs : list A) :
  Forall P xs → filter P xs = xs.
Proof.
  induction 1 as [|x xs Hx _ IH]; [done|].
  by rewrite filter_cons_True, IH.
Qed.

Lemma fmap_keep {A} (g : A → A) (xs : list A) :
  Forall (fun x => g x = x) xs → g <$> xs = xs.
Proof. induction 1 as [|x xs Hx _ IH]; csimpl; [done|]. by rewrite Hx, IH. Qed.

Lemma commitPortal_perm i old out h (B : list (InstId * Element)) :
  bodyChildren h ≡ₚ option_list ((i,.) <$> old) ++ B →
  Forall (fun x => x.1 ≠ i) B →
  bodyChildren (commitPortal i out h)
  ≡ₚ option_list ((i,.) <$> out) ++ B.
Proof.
  intros HP HB. unfold commitPortal.
  rewrite (routed_perm _ _ _ _ HP HB).
  destruct out as [c|], old as [c0|]; simpl in *.
  - rewrite HP. simpl. rewrite decide_True by done. f_equiv.
    rewrite fmap_keep; [done|].
    eapply Forall_impl; [done|]. intros x Hx. simpl.
    by rewrite decide_False.
  - rewrite HP. symmetry. apply Permutation_cons_append.
  - rewrite HP, filter_cons_False by (simpl; tauto).
    by rewrite filter_keep.
  - done.
Qed.
End host_fields.

(** ** Key presses and clicks *)

Section events.
Implicit Types (h : Host) (i : InstId) (p : ModalProps) (e : Element).

Lemma addCalls_nil h : addCalls [] h = h.
Proof. destruct h. unfold addCalls. simpl. by rewrite app_nil_r. Qed.

Lemma addCalls_app cs1 cs2 h :
  addCalls cs2 (addCalls cs1 h) = addCalls (cs1 ++ cs2) h.
Proof. unfold addCalls. simpl. by rewrite fmap_app, app_assoc. Qed.

Lemma invoke_addCalls i cb h : invoke i cb h = addCalls [(i, cb)] h.
Proof. done. Qed.

Lemma calls_addCalls cs h : calls (addCalls cs h) = calls h ++ cs.
Proof.
  unfold calls, addCalls. simpl. rewrite omap_app. f_equal.
  induction cs as [|[j cb] cs IH]; csimpl; [done|]. by rewrite IH.
Qed.

Lemma foldl_handleEscape key ls h :
  foldl (fun acc l => handleEscape l key acc) h ls
  = addCalls (if decide (key = "Escape")
              then (fun l => (l_owner l, l_onClose l)) <$> ls else []) h.
Proof.
  revert h. induction ls as [|l ls IH]; intros h; simpl.
  - destruct (decide _); by rewrite addCalls_nil.
  - rewrite IH. unfold handleEscape. destruct (decide _); [|done].
    by rewrite invoke_addCalls, addCalls_app.
Qed.

Lemma dispatchKeydown_eq key h :
  dispatchKeydown key h
  = addCalls (if decide (key = "Escape")
              then (fun l => (l_owner l, l_onClose l)) <$> keydown h
              else []) h.
Proof. apply foldl_handleEscape. Qed.

Lemma bubble_inert i xs ys ev h :
  Forall (fun x => onClick_of x = None) xs →
  bubble i (xs ++ ys) ev h = bubble i ys ev h.
Proof. induction 1 as [|x xs Hx _ IH]; simpl; [done|]. by rewrite Hx. Qed.

Lemma ancestry_head e path ch :
  ancestry e path = Some ch → ∃ ch', ch = e :: ch'.
Proof.
  destruct path as [|k rest]; simpl; [intros [= <-]; by eexists|].
  destruct (kids_of e !! k) as [c|]; [|done].
  destruct (ancestry c rest); simpl; [|done]. intros [= <-]. by eexists.
Qed.

Lemma inert_ancestry path : ∀ e ch,
  inert e = true → ancestry e path = Some ch →
  Forall (fun x => onClick_of x = None) ch.
Proof.
  induction path as [|k rest IH]; intros e ch He; simpl.
  - intros [= <-]. repeat constructor.
    destruct e as [? ? [?|] ?|?|?]; done.
  - destruct (kids_of e !! k) as [c|] eqn:Hk; [|done].
    destruct (ancestry c rest) as [ch'|] eqn:Hc; simpl; [|done].
    intros [= <-]. destruct e as [t cl [?|] ks|?|?]; simpl in *; try done.
    constructor; [done|]. eapply IH; [|done].
    apply list_elem_of_lookup_2, list_elem_of_In in Hk.
    eapply forallb_forall in He; done.
Qed.

Lemma dialog_kids p :
  ∃ L, kids_of (dialog p) = L ++ [closeButton p]
       ∧ Forall (fun c => inert c = true) L
       ∧ closeButtonIndex p = length L.
Proof.
  exists (headerPart p ++ [bodyPart p] ++ footerPart p).
  unfold closeButtonIndex, dialog. cbn [kids_of]. split_and!.
  - by rewrite <- !app_assoc.
  - rewrite !Forall_app. unfold headerPart, footerPart. split_and!.
    + destruct (title p) as [t|]; [|done].
      destruct (truthy t); by repeat constructor.
    + by repeat constructor.
    + destruct (footer p) as [t|]; [|done].
      destruct (truthy t); by repeat constructor.
  - rewrite !length_app. simpl. lia.
Qed.

(** A click on the backdrop itself. *)
Lemma click_backdrop i p h :
  click i (modalContent p) [] h
  = if shouldDismissOnBackdrop p then invoke i (onClose p) h else h.
Proof.
  unfold click. simpl. unfold handleBackdropClick.
  by destruct (shouldDismissOnBackdrop p).
Qed.

(** There is nothing but the dialog under the backdrop. *)
Lemma click_outside i p k rest h :
  click i (modalContent p) (S k :: rest) h = h.
Proof. done. Qed.

Lemma click_enter i p rest h :
  click i (modalContent p) (0 :: rest) h
  = match ancestry (dialog p) rest with
    | Some ch => bubble i (rev ch ++ [modalContent p]) (mkClick false) h
    | None => h
    end.
Proof.
  unfold click. cbn [ancestry kids_of modalContent lookup list_lookup].
  by destruct (ancestry (dialog p) rest).
Qed.

(** A click anywhere inside the dialog except on the close button. *)
Lemma click_interior i p rest h :
  (∀ r, rest ≠ closeButtonIndex p :: r) →
  click i (modalContent p) (0 :: rest) h = h.
Proof.
  intros Hrest. rewrite click_enter.
  destruct (ancestry (dialog p) rest) as [ch|] eqn:Hch; [|done].
  destruct (dialog_kids p) as (L & HL & Hin & Hidx).
  destruct rest as [|k r]; cbn [ancestry] in Hch.
  { injection Hch as <-. done. }
  destruct (kids_of (dialog p) !! k) as [c|] eqn:Hk; [|done].
  destruct (ancestry c r) as [ch'|] eqn:Hc; [|done].
  change (Some (dialog p :: ch') = Some ch) in Hch. injection Hch as <-.
  assert (inert c = true) as Hc'.
  { rewrite HL in Hk. apply lookup_app_Some in Hk as [Hk|[Hge Hk]].
    - apply list_elem_of_lookup_2 in Hk.
      eapply Forall_forall in Hin; done.
    - destruct (k - length L) as [|?] eqn:E; [|done].
      exfalso. apply (Hrest r). f_equal. lia. }
  pose proof (inert_ancestry _ _ _ Hc' Hc) as Hno.
  simpl. rewrite <- !app_assoc.
  rewrite bubble_inert by by apply Forall_rev.
  done.
Qed.

(** A click on the close button, or on the icon inside it. *)
Lemma click_closeButton i p r h :
  is_Some (ancestry (closeButton p) r) →
  click i (modalContent p) (0 :: closeButtonIndex p :: r) h
  = invoke i (onClose p) h.
Proof.
  intros [ch Hch]. rewrite click_enter.
  destruct (dialog_kids p) as (L & HL & Hin & Hidx).
  cbn [ancestry]. rewrite HL, Hidx.
  rewrite lookup_app_r, Nat.sub_diag by done. simpl. rewrite Hch. simpl.
  destruct r as [|k r']; simpl in Hch.
  { injection Hch as <-. done. }
  destruct k as [|k]; [|done]. simpl in Hch.
  destruct (ancestry closeIcon r') as [ch'|] eqn:Hc; [|done].
  injection Hch as <-.
  pose proof (inert_ancestry r' closeIcon ch' eq_refl Hc) as Hno.
  simpl. rewrite <- !app_assoc.
  rewrite bubble_inert by by apply Forall_rev.
  done.
Qed.

(** Whatever is clicked, the only thing that can happen is one call of
    [onClose]. *)
Lemma click_calls i p path h :
  ∃ cs, click i (modalContent p) path h = addCalls cs h
        ∧ (cs = [] ∨ cs = [(i, onClose p)]).
Proof.
  destruct path as [|[|k] rest].
  - rewrite click_backdrop. destruct (shouldDismissOnBackdrop p).
    + eexists. split; [apply invoke_addCalls|by right].
    + exists []. by rewrite addCalls_nil; auto.
  - destruct rest as [|k r].
    { exists []. rewrite addCalls_nil. split; [|by left].
      by apply click_interior. }
    destruct (decide (k = closeButtonIndex p)) as [->|Hk].
    + destruct (ancestry (closeButton p) r) as [ch|] eqn:Hch.
      * rewrite click_closeButton by by eexists.
        eexists. split; [apply invoke_addCalls|by right].
      * exists []. rewrite addCalls_nil. split; [|by left].
        rewrite click_enter.
        destruct (dialog_kids p) as (L & HL & Hin & Hidx).
        cbn [ancestry]. rewrite HL, Hidx.
        rewrite lookup_app_r, Nat.sub_diag by done. simpl.
        by rewrite Hch.
    + exists []. rewrite addCalls_nil. split; [|by left].
      apply click_interior. by intros r' [= ].
  - exists []. by rewrite addCalls_nil; auto.
Qed.
End events.

(** ** The three React steps preserve the invariant *)

Section steps.
Implicit Types (w : World) (f : Fiber) (i : InstId) (p : ModalProps).
Implicit Types (m : gmap InstId Fiber).

Lemma to_list_split m i f :
  m !! i = Some f → map_to_list m ≡ₚ (i, f) :: map_to_list (delete i m).
Proof. intros Hi. symmetry. by apply map_to_list_delete. Qed.

Lemma to_list_update m i f :
  map_to_list (<[i:=f]> m) ≡ₚ (i, f) :: map_to_list (delete i m).
Proof.
  rewrite <- insert_delete_eq. apply map_to_list_insert, lookup_delete_eq.
Qed.

Lemma others_ne m i : Forall (fun x => x.1 ≠ i) (map_to_list (delete i m)).
Proof.
  apply Forall_forall. intros [j f] Hin%elem_of_map_to_list. simpl.
  intros ->. by rewrite lookup_delete_eq in Hin.
Qed.

Lemma portals_ne m i :
  Forall (fun x => x.1 ≠ i) (omap portalOf (map_to_list (delete i m))).
Proof.
  apply Forall_forall. intros x (y & Hy & Hx)%list_elem_of_omap.
  pose proof (others_ne m i) as Hne.
  eapply Forall_forall in Hne; [|done].
  unfold portalOf in Hx. destruct (Modal _); simplify_eq/=. done.
Qed.

Lemma omap_cons_list {A B} (g : A → option B) x xs :
  omap g (x :: xs) = option_list (g x) ++ omap g xs.
Proof. simpl. by destruct (g x). Qed.

Lemma view_keydown w i :
  Inv w →
  keydown (host w)
  ≡ₚ option_list (fibers w !! i ≫= escapeCleanup)
     ++ omap heldBy (map_to_list (delete i (fibers w))).
Proof.
  intros HI. rewrite (inv_keydown _ HI).
  destruct (fibers w !! i) as [f|] eqn:Hi; simpl.
  - by rewrite (to_list_split _ _ _ Hi), omap_cons_list.
  - by rewrite delete_id.
Qed.

Lemma view_body w i :
  Inv w →
  bodyChildren (host w)
  ≡ₚ option_list ((i,.) <$> (fibers w !! i ≫= fun f => Modal (props f)))
     ++ omap portalOf (map_to_list (delete i (fibers w))).
Proof.
  intros HI. rewrite (inv_body _ HI).
  destruct (fibers w !! i) as [f|] eqn:Hi; simpl.
  - by rewrite (to_list_split _ _ _ Hi), omap_cons_list.
  - by rewrite delete_id.
Qed.

(** Installing a fiber for [i] on top of whatever was there. *)
Lemma Inv_insert w i f h n :
  Inv w →
  i < n → (nextId w ≤ n)%nat →
  fiberOK i f →
  freshBound h →
  keydown h ≡ₚ option_list (escapeCleanup f)
               ++ omap heldBy (map_to_list (delete i (fibers w))) →
  bodyChildren h ≡ₚ option_list ((i,.) <$> Modal (props f))
               ++ omap portalOf (map_to_list (delete i (fibers w))) →
  Inv (mkWorld h (<[i:=f]> (fibers w)) n).
Proof.
  intros HI Hi Hn Hf Hb Hk Hc. split; simpl.
  - intros j g. rewrite lookup_insert. case_decide; [intros; lia|].
    intros Hj. apply (inv_ids _ HI) in Hj. lia.
  - intros j g. rewrite lookup_insert. case_decide; [by intros [= <-]; subst|].
    apply (inv_fiber _ HI).
  - done.
  - by rewrite to_list_update, omap_cons_list.
  - by rewrite to_list_update, omap_cons_list.
Qed.

Lemma Inv_delete w i h :
  Inv w →
  freshBound h →
  keydown h ≡ₚ omap heldBy (map_to_list (delete i (fibers w))) →
  bodyChildren h ≡ₚ omap portalOf (map_to_list (delete i (fibers w))) →
  Inv (mkWorld h (delete i (fibers w)) (nextId w)).
Proof.
  intros HI Hb Hk Hc. split; simpl; try done.
  - intros j g [_ Hj]%lookup_delete_Some. by eapply inv_ids.
  - intros j g [_ Hj]%lookup_delete_Some. by eapply inv_fiber.
Qed.

Lemma mount_step_eq p w :
  let i := nextId w in
  let h0 := commitPortal i (Modal p) (host w) in
  let r1 := effectEscape i p h0 in
  let r2 := effectScroll p r1.1 in
  mount_step p w
  = mkWorld r2.1 (<[i := mkFiber p r1.2 r2.2]> (fibers w)) (S i).
Proof.
  intros i h0 r1 r2. unfold mount_step. fold i h0. fold r1.
  destruct r1 as [h1 c1] eqn:E1. simpl in r2. fold r2.
  by destruct r2 as [h2 c2].
Qed.

Lemma render_step_eq i p w f :
  fibers w !! i = Some f →
  let h0 := commitPortal i (Modal p) (host w) in
  let changed1 := bool_decide (escapeDeps (props f) ≠ escapeDeps p) in
  let changed2 := bool_decide (scrollDeps (props f) ≠ scrollDeps p) in
  let h1 := if changed1 then cleanupEscape (escapeCleanup f) h0 else h0 in
  let h2 := if changed2 then cleanupScroll (scrollCleanup f) h1 else h1 in
  let r1 :=
    if changed1 then effectEscape i p h2 else (h2, escapeCleanup f) in
  let r2 :=
    if changed2 then effectScroll p r1.1 else (r1.1, scrollCleanup f) in
  render_step i p w
  = mkWorld r2.1 (<[i := mkFiber p r1.2 r2.2]> (fibers w)) (nextId w).
Proof.
  intros Hi h0 changed1 changed2 h1 h2 r1 r2.
  unfold render_step. rewrite Hi. fold h0 changed1 changed2.
  fold h1. fold h2. fold r1.
  destruct r1 as [h3 c1] eqn:E1. simpl in r2. fold r2.
  by destruct r2 as [h4 c2].
Qed.

Lemma freshBound_frame (h h' : Host) :
  keydown h' = keydown h → fresh h' = fresh h →
  freshBound h → freshBound h'.
Proof. unfold freshBound. by intros -> ->. Qed.

Lemma lookup_nextId w : Inv w → fibers w !! nextId w = None.
Proof.
  intros HI. destruct (fibers w !! nextId w) as [f|] eqn:E; [|done].
  apply (inv_ids _ HI) in E. lia.
Qed.

Lemma fiberOK_fresh i p (h : Host) :
  fiberOK i (mkFiber p (escapeClosure i p h) (isOpen p)).
Proof.
  split; [done|]. unfold escapeClosure. simpl.
  by destruct (isOpen p), (shouldDismissOnEscape p).
Qed.

Lemma Inv_mount p w : Inv w → Inv (mount_step p w).
Proof.
  intros HI. rewrite mount_step_eq.
  set (i := nextId w). set (h0 := commitPortal i (Modal p) (host w)).
  assert (freshBound h0) as Hb0.
  { eapply freshBound_frame; [apply keydown_commitPortal
                             |apply fresh_commitPortal|apply HI]. }
  pose proof (lookup_nextId _ HI) as Hnone. fold i in Hnone.
  apply Inv_insert; simpl; try done; try lia.
  - rewrite effectScroll_snd, effectEscape_snd. apply fiberOK_fresh.
  - eapply freshBound_frame; [apply keydown_effectScroll
                             |apply fresh_effectScroll|].
    by apply freshBound_effectEscape.
  - rewrite keydown_effectScroll, keydown_effectEscape by done.
    rewrite effectEscape_snd. unfold h0. rewrite keydown_commitPortal.
    rewrite (view_keydown w i HI), Hnone. simpl.
    apply Permutation_app_comm.
  - rewrite bodyChildren_effectScroll, bodyChildren_effectEscape.
    apply (commitPortal_perm _ None); [|apply portals_ne].
    by rewrite (view_body w i HI), Hnone.
Qed.

Lemma Inv_render i p w : Inv w → Inv (render_step i p w).
Proof.
  intros HI. destruct (fibers w !! i) as [f|] eqn:Hi;
    [|unfold render_step; by rewrite Hi].
  rewrite (render_step_eq _ _ _ _ Hi).
  set (h0 := commitPortal i (Modal p) (host w)).
  set (changed1 := bool_decide (escapeDeps (props f) ≠ escapeDeps p)).
  set (changed2 := bool_decide (scrollDeps (props f) ≠ scrollDeps p)).
  set (h1 := if changed1 then cleanupEscape (escapeCleanup f) h0 else h0).
  set (h2 := if changed2 then cleanupScroll (scrollCleanup f) h1 else h1).
  set (r1 := if changed1 then effectEscape i p h2
             else (h2, escapeCleanup f)).
  set (r2 := if changed2 then effectScroll p r1.1
             else (r1.1, scrollCleanup f)).
  pose proof (inv_fiber _ HI _ _ Hi) as [Hsc Hec].
  pose proof (view_keydown w i HI) as Hk. rewrite Hi in Hk. simpl in Hk.
  assert (freshBound h0) as Hb0.
  { eapply freshBound_frame; [apply keydown_commitPortal
                             |apply fresh_commitPortal|apply HI]. }
  assert (freshBound h1) as Hb1.
  { unfold h1. destruct changed1; [by apply freshBound_cleanupEscape|done]. }
  assert (freshBound h2) as Hb2.
  { unfold h2. destruct changed2; [|done].
    eapply freshBound_frame; [apply keydown_cleanupScroll
                             |apply fresh_cleanupScroll|done]. }
  assert (keydown h2 = keydown h1) as Hk21.
  { unfold h2. destruct changed2; [apply keydown_cleanupScroll|done]. }
  assert (keydown r2.1 = keydown r1.1) as Hk43.
  { unfold r2. destruct changed2; [apply keydown_effectScroll|done]. }
  assert (fresh r2.1 = fresh r1.1) as Hf43.
  { unfold r2. destruct changed2; [apply fresh_effectScroll|done]. }
  assert (r2.2 = isOpen p) as Hr2.
  { unfold r2, changed2. case_bool_decide as Hd; simpl.
    - apply effectScroll_snd.
    - unfold scrollDeps in Hd. congruence. }
  apply Inv_insert; simpl; try done; try lia.
  - by eapply inv_ids.
  - rewrite Hr2. unfold r1, changed1. case_bool_decide as Hd; simpl.
    + rewrite effectEscape_snd. apply fiberOK_fresh.
    + unfold escapeDeps in Hd.
      injection Hd as Ho Hc He. split; [done|]. simpl.
      destruct (escapeCleanup f); rewrite <- ?Ho, <- ?Hc, <- ?He; done.
  - eapply freshBound_frame; [done..|].
    unfold r1. destruct changed1; [by apply freshBound_effectEscape|done].
  - rewrite Hk43. unfold r1, h1 in *. destruct changed1; simpl.
    + rewrite keydown_effectEscape, effectEscape_snd by done.
      rewrite Hk21. rewrite Permutation_app_comm. f_equiv.
      apply cleanupEscape_perm. unfold h0.
      by rewrite keydown_commitPortal.
    + rewrite Hk21. unfold h0. by rewrite keydown_commitPortal.
  - assert (bodyChildren r2.1 = bodyChildren h0) as ->.
    { unfold r2, r1, h2, h1.
      destruct changed1, changed2; simpl;
        rewrite ?bodyChildren_effectScroll, ?bodyChildren_effectEscape,
          ?bodyChildren_cleanupScroll, ?bodyChildren_cleanupEscape; done. }
    apply (commitPortal_perm _ (Modal (props f))); [|apply portals_ne].
    by rewrite (view_body w i HI), Hi.
Qed.

Lemma Inv_unmount i w : Inv w → Inv (unmount_step i w).
Proof.
  intros HI. unfold unmount_step.
  destruct (fibers w !! i) as [f|] eqn:Hi; [|done].
  pose proof (view_keydown w i HI) as Hk. rewrite Hi in Hk. simpl in Hk.
  apply Inv_delete; simpl; try done.
  - eapply freshBound_frame; [apply keydown_cleanupScroll
                             |apply fresh_cleanupScroll|].
    apply freshBound_cleanupEscape.
    eapply freshBound_frame; [apply keydown_commitPortal
                             |apply fresh_commitPortal|apply HI].
  - rewrite keydown_cleanupScroll. apply cleanupEscape_perm.
    by rewrite keydown_commitPortal.
  - rewrite bodyChildren_cleanupScroll, bodyChildren_cleanupEscape.
    change (omap portalOf (map_to_list (delete i (fibers w))))
      with (option_list ((i,.) <$> @None Element)
            ++ omap portalOf (map_to_list (delete i (fibers w)))).
    apply (commitPortal_perm _ (Modal (props f))); [|apply portals_ne].
    by rewrite (view_body w i HI), Hi.
Qed.

Lemma bubble_addCalls i chain ev h : ∃ cs, bubble i chain ev h = addCalls cs h.
Proof.
  revert ev h. induction chain as [|x outer IH]; intros ev h; simpl.
  - exists []. by rewrite addCalls_nil.
  - destruct (onClick_of x) as [[flag cb| |cb]|]; simpl; [| | |apply IH].
    + unfold handleBackdropClick. destruct flag; simpl.
      * destruct (propagationStopped ev).
        { eexists. apply invoke_addCalls. }
        destruct (IH ev (invoke i cb h)) as [cs ->].
        rewrite invoke_addCalls, addCalls_app. by eexists.
      * destruct (propagationStopped ev); [|apply IH].
        exists []. by rewrite addCalls_nil.
    + exists []. by rewrite addCalls_nil.
    + destruct (propagationStopped ev).
      { eexists. apply invoke_addCalls. }
      destruct (IH ev (invoke i cb h)) as [cs ->].
      rewrite invoke_addCalls, addCalls_app. by eexists.
Qed.

Lemma click_addCalls i root path h :
  ∃ cs, click i root path h = addCalls cs h.
Proof.
  unfold click. destruct (ancestry root path); [apply bubble_addCalls|].
  exists []. by rewrite addCalls_nil.
Qed.

Lemma Inv_addCalls cs w : Inv w → Inv (onHost (addCalls cs) w).
Proof. intros [H1 H2 H3 H4 H5]. by split. Qed.

Lemma Inv_step w a : Inv w → Inv (step w a).
Proof.
  intros HI. destruct a as [p|i p|i|key|i path]; cbn [step].
  - by apply Inv_mount.
  - by apply Inv_render.
  - by apply Inv_unmount.
  - unfold onHost. rewrite dispatchKeydown_eq. by apply (Inv_addCalls _ w).
  - destruct (list_find _ _) as [[k [j root]]|]; [|done].
    unfold onHost.
    destruct (click_addCalls i root path (host w)) as [cs ->].
    by apply (Inv_addCalls _ w).
Qed.

Lemma Inv_init s0 : Inv (init s0).
Proof.
  split; simpl; try done; try constructor; by rewrite map_to_list_empty.
Qed.

Lemma Inv_run_from w acts : Inv w → Inv (run w acts).
Proof.
  revert w. induction acts as [|a acts IH]; intros w HI; simpl; [done|].
  by apply IH, Inv_step.
Qed.

Lemma Inv_run s0 acts : Inv (run (init s0) acts).
Proof. apply Inv_run_from, Inv_init. Qed.

(** *** Counting instances *)

Lemma countIf_insert P m i f :
  countIf P (<[i:=f]> m) = (if P f then 1 else 0) + countIf P (delete i m).
Proof.
  unfold countIf. rewrite to_list_update. csimpl.
  destruct (P f) eqn:E.
  - by rewrite filter_cons_True.
  - rewrite filter_cons_False; [done|]. by rewrite E.
Qed.

Lemma countIf_lookup P m i f :
  m !! i = Some f →
  countIf P m = (if P f then 1 else 0) + countIf P (delete i m).
Proof.
  intros Hi. rewrite <- (insert_id m i f) at 1 by done.
  apply countIf_insert.
Qed.

Lemma countIf_fresh P m i f :
  m !! i = None →
  countIf P (<[i:=f]> m) = (if P f then 1 else 0) + countIf P m.
Proof. intros Hi. by rewrite countIf_insert, delete_id. Qed.


Lemma elem_of_fibers m f :
  f ∈ (map_to_list m).*2 → ∃ i, m !! i = Some f.
Proof.
  intros ([i g] & -> & Hin%elem_of_map_to_list)%list_elem_of_fmap.
  by exists i.
Qed.



Lemma countIf_pos P m i f :
  m !! i = Some f → P f = true → 0 < countIf P m.
Proof. intros Hi HP. rewrite (countIf_lookup _ _ _ _ Hi), HP. lia. Qed.

Lemma length_held (L : list (InstId * Fiber)) :
  Forall (fun x => fiberOK x.1 x.2) L →
  length (omap heldBy L)
  = length (filter (fun f => isOpen (props f)
                              && shouldDismissOnEscape (props f) = true)
                   L.*2).
Proof.
  induction 1 as [|[i f] L [_ Hf] _ IH]; [done|]. csimpl in *.
  unfold heldBy at 1. simpl. destruct (escapeCleanup f) as [l|].
  - destruct Hf as (Ho & He & _).
    rewrite filter_cons_True by by rewrite Ho, He.
    simpl. by rewrite IH.
  - rewrite filter_cons_False; [done|]. by rewrite Hf.
Qed.
End steps.

(** ** What each React step records *)

Section logs.
Implicit Types (w : World) (f : Fiber) (i : InstId) (p : ModalProps).
Implicit Types (h : Host).

Lemma log_commitPortal i out h :
  log (commitPortal i out h) = log h ++ portalEvents i (routed i h) out.
Proof.
  unfold commitPortal, portalEvents.
  destruct out, (routed i h); simpl; by rewrite ?app_nil_r.
Qed.

Lemma log_cleanupEscape c h :
  (∀ l, c = Some l → l ∈ keydown h) →
  log (cleanupEscape c h) = log h ++ option_list (EvUnlisten <$> c).
Proof.
  destruct c as [l|]; simpl; [|by rewrite app_nil_r].
  intros Hin. unfold removeEventListener.
  by rewrite decide_True by by apply Hin.
Qed.

Lemma log_cleanupScroll c h :
  log (cleanupScroll c h) = log h ++ whenE c [EvOverflow "unset"].
Proof. destruct c; simpl; by rewrite ?app_nil_r. Qed.

Lemma log_effectEscape i p h :
  freshBound h →
  log (effectEscape i p h).1
  = log h ++ option_list (EvListen <$> escapeClosure i p h).
Proof.
  intros Hb. unfold effectEscape, escapeClosure.
  destruct (isOpen p), (shouldDismissOnEscape p); simpl;
    try by rewrite app_nil_r.
  unfold addEventListener. simpl.
  destruct (decide _) as [Hin|]; [|done].
  by apply freshBound_notin in Hin.
Qed.

Lemma log_effectScroll p h :
  log (effectScroll p h).1 = log h ++ whenE (isOpen p) [EvOverflow "hidden"].
Proof.
  unfold effectScroll. destruct (isOpen p); simpl; by rewrite ?app_nil_r.
Qed.

Lemma routed_fiber w i :
  Inv w →
  routed i (host w)
  = match fibers w !! i with Some f => isOpen (props f) | None => false end.
Proof.
  intros HI.
  rewrite (routed_perm i (host w) _ _ (view_body w i HI) (portals_ne _ i)).
  destruct (fibers w !! i) as [f|]; simpl; [|done].
  unfold Modal. by destruct (isOpen (props f)).
Qed.

Lemma held_in_keydown w i f l :
  Inv w → fibers w !! i = Some f → escapeCleanup f = Some l →
  l ∈ keydown (host w).
Proof.
  intros HI Hi Hl. rewrite (view_keydown w i HI), Hi. simpl.
  rewrite Hl. left.
Qed.

(** Mounting: the portal is committed, then the first effect runs, then
    the second. *)
Lemma mount_log p w :
  Inv w →
  log (host (mount_step p w))
  = log (host w)
    ++ portalEvents (nextId w) false (Modal p)
    ++ option_list (EvListen <$> escapeClosure (nextId w) p (host w))
    ++ whenE (isOpen p) [EvOverflow "hidden"].
Proof.
  intros HI. rewrite mount_step_eq. simpl.
  assert (freshBound (commitPortal (nextId w) (Modal p) (host w))) as Hb0.
  { eapply freshBound_frame; [apply keydown_commitPortal
                             |apply fresh_commitPortal|apply HI]. }
  rewrite log_effectScroll, log_effectEscape, log_commitPortal by done.
  rewrite (routed_fiber _ _ HI), (lookup_nextId _ HI).
  unfold escapeClosure. rewrite fresh_commitPortal.
  by rewrite <- !app_assoc.
Qed.

(** Re-rendering: the portal is committed, the cleanups of the effects
    whose dependencies changed run, then those effects run again. *)
Lemma render_log i p w f :
  Inv w → fibers w !! i = Some f →
  let changed1 := bool_decide (escapeDeps (props f) ≠ escapeDeps p) in
  let changed2 := bool_decide (scrollDeps (props f) ≠ scrollDeps p) in
  log (host (render_step i p w))
  = log (host w)
    ++ portalEvents i (isOpen (props f)) (Modal p)
    ++ whenE changed1 (option_list (EvUnlisten <$> escapeCleanup f))
    ++ whenE changed2 (whenE (scrollCleanup f) [EvOverflow "unset"])
    ++ whenE changed1
         (option_list (EvListen <$> escapeClosure i p (host w)))
    ++ whenE changed2 (whenE (isOpen p) [EvOverflow "hidden"]).
Proof.
  intros HI Hi changed1 changed2.
  rewrite (render_step_eq _ _ _ _ Hi). fold changed1 changed2. simpl.
  set (h0 := commitPortal i (Modal p) (host w)).
  set (h1 := if changed1 then cleanupEscape (escapeCleanup f) h0 else h0).
  set (h2 := if changed2 then cleanupScroll (scrollCleanup f) h1 else h1).
  assert (freshBound h0) as Hb0.
  { eapply freshBound_frame; [apply keydown_commitPortal
                             |apply fresh_commitPortal|apply HI]. }
  assert (freshBound h1) as Hb1.
  { unfold h1. destruct changed1; [by apply freshBound_cleanupEscape|done]. }
  assert (freshBound h2) as Hb2.
  { unfold h2. destruct changed2; [|done].
    eapply freshBound_frame; [apply keydown_cleanupScroll
                             |apply fresh_cleanupScroll|done]. }
  assert (fresh h2 = fresh (host w)) as Hfr.
  { unfold h2, h1, h0. destruct changed1, changed2;
      by rewrite ?fresh_cleanupScroll, ?fresh_cleanupEscape,
           ?fresh_commitPortal. }
  assert (log h0 = log (host w) ++ portalEvents i (isOpen (props f)) (Modal p))
    as Hl0.
  { unfold h0. by rewrite log_commitPortal, (routed_fiber _ _ HI), Hi. }
  assert (log h1 = log h0
            ++ whenE changed1 (option_list (EvUnlisten <$> escapeCleanup f)))
    as Hl1.
  { unfold h1. destruct changed1; simpl; [|by rewrite app_nil_r].
    apply log_cleanupEscape. intros l Hl. unfold h0.
    rewrite keydown_commitPortal. by eapply held_in_keydown. }
  assert (log h2 = log h1
            ++ whenE changed2 (whenE (scrollCleanup f) [EvOverflow "unset"]))
    as Hl2.
  { unfold h2. destruct changed2; simpl; [|by rewrite app_nil_r].
    apply log_cleanupScroll. }
  assert (escapeClosure i p h2 = escapeClosure i p (host w)) as Hcl.
  { unfold escapeClosure. by rewrite Hfr. }
  destruct changed1, changed2; simpl;
    rewrite ?log_effectScroll, ?log_effectEscape by done;
    rewrite ?Hcl, Hl2, Hl1, Hl0; simpl;
    by rewrite <- ?app_assoc, ?app_nil_r.
Qed.

(** Unmounting: the portal is removed and every pending cleanup runs. *)
Lemma unmount_log i w f :
  Inv w → fibers w !! i = Some f →
  log (host (unmount_step i w))
  = log (host w)
    ++ portalEvents i (isOpen (props f)) None
    ++ option_list (EvUnlisten <$> escapeCleanup f)
    ++ whenE (scrollCleanup f) [EvOverflow "unset"].
Proof.
  intros HI Hi. unfold unmount_step. rewrite Hi. simpl.
  rewrite log_cleanupScroll, log_cleanupEscape, log_commitPortal.
  - rewrite (routed_fiber _ _ HI), Hi. by rewrite <- !app_assoc.
  - intros l Hl. rewrite keydown_commitPortal. by eapply held_in_keydown.
Qed.
End logs.

(** ** The overflow style *)

Section scroll.
Implicit Types (w : World) (f : Fiber) (i : InstId) (p : ModalProps).
Implicit Types (h : Host).

Lemma ovOK_setOverflow s0 s h : ovOK s0 (setOverflow s h).
Proof.
  unfold ovOK, overflowWrites, setOverflow, writesOf. simpl.
  rewrite omap_app. csimpl. by rewrite last_snoc.
Qed.

Lemma ovOK_frame s0 h h' d :
  overflow h' = overflow h → log h' = log h ++ d → writesOf d = [] →
  ovOK s0 h → ovOK s0 h'.
Proof.
  unfold ovOK, overflowWrites, writesOf. intros -> -> Hd. rewrite omap_app.
  unfold writesOf in Hd. by rewrite Hd, app_nil_r.
Qed.

Lemma ovOK_commitPortal s0 i out h :
  ovOK s0 h → ovOK s0 (commitPortal i out h).
Proof.
  apply ovOK_frame with (d := portalEvents i (routed i h) out).
  - apply overflow_commitPortal.
  - apply log_commitPortal.
  - unfold portalEvents. by destruct out, (routed i h).
Qed.

Lemma ovOK_cleanupEscape s0 c h : ovOK s0 h → ovOK s0 (cleanupEscape c h).
Proof.
  destruct c as [l|]; simpl; [|done]. unfold removeEventListener.
  destruct (decide _); [|done].
  by apply ovOK_frame with (d := [EvUnlisten l]).
Qed.

Lemma ovOK_effectEscape s0 i p h :
  ovOK s0 h → ovOK s0 (effectEscape i p h).1.
Proof.
  unfold effectEscape.
  destruct (isOpen p), (shouldDismissOnEscape p); simpl; try done.
  unfold addEventListener. destruct (decide _); simpl.
  - by apply ovOK_frame with (d := []); simpl; rewrite ?app_nil_r.
  - by eapply ovOK_frame with (d := [EvListen _]).
Qed.

Lemma ovOK_cleanupScroll s0 c h : ovOK s0 h → ovOK s0 (cleanupScroll c h).
Proof. destruct c; simpl; [intros _; apply ovOK_setOverflow|done]. Qed.

Lemma ovOK_effectScroll s0 p h : ovOK s0 h → ovOK s0 (effectScroll p h).1.
Proof.
  unfold effectScroll.
  destruct (isOpen p); simpl; [intros _; apply ovOK_setOverflow|done].
Qed.

Lemma writesOf_calls cs : writesOf ((fun c => EvCall c.1 c.2) <$> cs) = [].
Proof. induction cs as [|c cs IH]; [done|]. csimpl. apply IH. Qed.

Lemma ovOK_addCalls s0 cs h : ovOK s0 h → ovOK s0 (addCalls cs h).
Proof.
  apply ovOK_frame with (d := (fun c => EvCall c.1 c.2) <$> cs);
    [done..|apply writesOf_calls].
Qed.

Lemma ovOK_step s0 w a : ovOK s0 (host w) → ovOK s0 (host (step w a)).
Proof.
  intros H0. destruct a as [p|i p|i|key|i path]; cbn [step].
  - rewrite mount_step_eq. simpl.
    by apply ovOK_effectScroll, ovOK_effectEscape, ovOK_commitPortal.
  - destruct (fibers w !! i) as [f|] eqn:Hi;
      [|unfold render_step; by rewrite Hi].
    rewrite (render_step_eq _ _ _ _ Hi). simpl.
    destruct (bool_decide (escapeDeps _ ≠ _)),
      (bool_decide (scrollDeps _ ≠ _)); cbn [fst snd];
      auto 8 using ovOK_effectScroll, ovOK_effectEscape, ovOK_commitPortal,
        ovOK_cleanupScroll, ovOK_cleanupEscape.
  - unfold unmount_step. destruct (fibers w !! i) as [f|]; [|done].
    cbn [host].
    auto using ovOK_commitPortal, ovOK_cleanupScroll, ovOK_cleanupEscape.
  - unfold onHost. simpl. rewrite dispatchKeydown_eq.
    by apply ovOK_addCalls.
  - destruct (list_find _ _) as [[k [j root]]|]; [|done].
    unfold onHost. simpl.
    destruct (click_addCalls i root path (host w)) as [cs ->].
    by apply ovOK_addCalls.
Qed.

Lemma ovOK_run s0 acts : ovOK s0 (host (run (init s0) acts)).
Proof.
  assert (∀ w, ovOK s0 (host w) → ovOK s0 (host (run w acts))) as H.
  { induction acts as [|a acts IH]; intros w Hw; simpl; [done|].
    by apply IH, ovOK_step. }
  by apply H.
Qed.

Lemma writesOf_app a b : writesOf (a ++ b) = writesOf a ++ writesOf b.
Proof. apply omap_app. Qed.

Lemma writesOf_portal i was out : writesOf (portalEvents i was out) = [].
Proof. by destruct out, was. Qed.

Lemma writesOf_listen c : writesOf (option_list (EvListen <$> c)) = [].
Proof. by destruct c. Qed.

Lemma writesOf_unlisten c : writesOf (option_list (EvUnlisten <$> c)) = [].
Proof. by destruct c. Qed.

Lemma fibers_mount p w :
  ∃ c1 c2,
    fibers (mount_step p w) = <[nextId w := mkFiber p c1 c2]> (fibers w).
Proof. rewrite mount_step_eq. simpl. by do 2 eexists. Qed.

Lemma fibers_render i p w f :
  fibers w !! i = Some f →
  ∃ c1 c2, fibers (render_step i p w) = <[i := mkFiber p c1 c2]> (fibers w).
Proof. intros Hi. rewrite (render_step_eq _ _ _ _ Hi). by do 2 eexists. Qed.

Lemma fibers_unmount i w : fibers (unmount_step i w) = delete i (fibers w).
Proof.
  unfold unmount_step. destruct (fibers w !! i) eqn:Hi; [done|].
  by rewrite delete_id.
Qed.

Lemma openCount_mount p w :
  Inv w → openCount (mount_step p w) = bool_nat (isOpen p) + openCount w.
Proof.
  intros HI. destruct (fibers_mount p w) as (c1 & c2 & Hf).
  unfold openCount. rewrite Hf.
  by rewrite countIf_fresh by by apply lookup_nextId.
Qed.

Lemma openCount_render i p w f :
  fibers w !! i = Some f →
  openCount (render_step i p w) + bool_nat (isOpen (props f))
  = openCount w + bool_nat (isOpen p).
Proof.
  intros Hi. destruct (fibers_render i p w f Hi) as (c1 & c2 & Hf).
  unfold openCount. rewrite Hf, countIf_insert.
  rewrite (countIf_lookup _ _ _ _ Hi). simpl. unfold bool_nat. lia.
Qed.

Lemma openCount_unmount i w f :
  fibers w !! i = Some f →
  openCount (unmount_step i w) + bool_nat (isOpen (props f)) = openCount w.
Proof.
  intros Hi. unfold openCount. rewrite fibers_unmount.
  rewrite (countIf_lookup _ (fibers w) _ _ Hi). unfold bool_nat. lia.
Qed.

(** What one step writes to the overflow style. *)
Lemma step_writes w a :
  Inv w →
  ∃ d, overflowWrites (host (step w a)) = overflowWrites (host w) ++ d
       ∧ ((d = [] ∧ openCount (step w a) = openCount w)
          ∨ d = ["unset"]
          ∨ (d = ["hidden"] ∧ 0 < openCount (step w a))).
Proof.
  intros HI. unfold overflowWrites.
  destruct a as [p|i p|i|key|i path]; cbn [step].
  - rewrite (mount_log _ _ HI), !writesOf_app.
    rewrite writesOf_portal, writesOf_listen. simpl.
    pose proof (openCount_mount p w HI) as Hc.
    destruct (isOpen p); simpl in *; eexists; (split; [done|]).
    + right. right. split; [done|lia].
    + left. split; [done|lia].
  - destruct (fibers w !! i) as [f|] eqn:Hi; cycle 1.
    { unfold render_step. rewrite Hi. exists []. rewrite app_nil_r. auto. }
    rewrite (render_log _ _ _ _ HI Hi), !writesOf_app.
    rewrite writesOf_portal.
    pose proof (openCount_render i p w f Hi) as Hc.
    destruct (inv_fiber _ HI _ _ Hi) as [-> _].
    unfold scrollDeps.
    destruct (bool_decide (escapeDeps _ ≠ _)); cbn [whenE];
      rewrite ?writesOf_listen, ?writesOf_unlisten;
      destruct (isOpen (props f)), (isOpen p); simpl in *;
      eexists; (split; [done|]); auto with lia.
  - destruct (fibers w !! i) as [f|] eqn:Hi; cycle 1.
    { unfold unmount_step. rewrite Hi. exists []. rewrite app_nil_r. auto. }
    rewrite (unmount_log _ _ _ HI Hi), !writesOf_app.
    rewrite writesOf_portal, writesOf_unlisten.
    pose proof (openCount_unmount i w f Hi) as Hc.
    destruct (inv_fiber _ HI _ _ Hi) as [-> _].
    destruct (isOpen (props f)); simpl in *; eexists; (split; [done|]).
    + auto.
    + left. split; [done|lia].
  - unfold onHost. cbn [host]. rewrite dispatchKeydown_eq.
    unfold addCalls. cbn [log]. rewrite writesOf_app, writesOf_calls.
    exists []. auto.
  - destruct (list_find _ _) as [[k [j root]]|];
      [|exists []; rewrite app_nil_r; auto].
    unfold onHost. cbn [host].
    destruct (click_addCalls i root path (host w)) as [cs ->].
    unfold addCalls. cbn [log]. rewrite writesOf_app, writesOf_calls.
    exists []. auto.
Qed.

Lemma lastWriteOK_step w a : Inv w → lastWriteOK w → lastWriteOK (step w a).
Proof.
  intros HI Hw s. destruct (step_writes w a HI) as (d & -> & Hd).
  destruct Hd as [[-> Hc]|[->|[-> Hc]]].
  - rewrite app_nil_r, Hc. apply Hw.
  - rewrite last_snoc. intros [= <-]. by left.
  - rewrite last_snoc. intros [= <-]. by right.
Qed.

Lemma lastWriteOK_run s0 acts : lastWriteOK (run (init s0) acts).
Proof.
  assert (∀ w, Inv w → lastWriteOK w → lastWriteOK (run w acts)) as H.
  { induction acts as [|a acts IH]; intros w HI Hw; simpl; [done|].
    by apply IH; [apply Inv_step|apply lastWriteOK_step]. }
  apply H; [apply Inv_init|]. by intros s.
Qed.
End scroll.

(** ** Facts about reachable worlds *)

Section reachable.
Implicit Types (w : World) (f : Fiber) (i : InstId) (p : ModalProps).
Implicit Types (h : Host) (l : Listener).



Lemma keydown_count w : Inv w → length (keydown (host w)) = openEscapeCount w.
Proof.
  intros HI. rewrite (inv_keydown _ HI). apply length_held.
  apply Forall_forall. intros [i f] Hin%elem_of_map_to_list.
  by eapply inv_fiber.
Qed.

(** Every registered listener is the one its instance holds. *)
Lemma listener_fiber w l :
  Inv w → l ∈ keydown (host w) →
  ∃ f, fibers w !! l_owner l = Some f ∧ escapeCleanup f = Some l.
Proof.
  intros HI Hin. rewrite (inv_keydown _ HI) in Hin.
  apply list_elem_of_omap in Hin as ([j f] & Hjf%elem_of_map_to_list & Hl).
  unfold heldBy in Hl. simpl in Hl.
  pose proof (inv_fiber _ HI _ _ Hjf) as [_ Hok]. rewrite Hl in Hok.
  destruct Hok as (_ & _ & <- & _). by exists f.
Qed.

(** Every child of the body is what its open instance rendered last. *)
Lemma body_elem w i c :
  Inv w → (i, c) ∈ bodyChildren (host w) →
  ∃ f, fibers w !! i = Some f ∧ isOpen (props f) = true
       ∧ c = modalContent (props f).
Proof.
  intros HI Hin. rewrite (inv_body _ HI) in Hin.
  apply list_elem_of_omap in Hin as ([j f] & Hjf%elem_of_map_to_list & Hc).
  unfold portalOf, Modal in Hc. simpl in Hc.
  destruct (isOpen (props f)) eqn:Ho; simplify_eq/=. by exists f.
Qed.

Lemma find_root w i f :
  Inv w → fibers w !! i = Some f → isOpen (props f) = true →
  ∃ k, list_find (fun x => x.1 = i) (bodyChildren (host w))
       = Some (k, (i, modalContent (props f))).
Proof.
  intros HI Hi Ho.
  assert ((i, modalContent (props f)) ∈ bodyChildren (host w)) as Hin.
  { rewrite (view_body w i HI), Hi. simpl. unfold Modal. rewrite Ho.
    left. }
  destruct (list_find_elem_of (fun x : InstId * Element => x.1 = i)
              _ _ Hin eq_refl) as [[k [j c]] Hfind].
  exists k. rewrite Hfind.
  apply list_find_Some in Hfind as (Hk & Hj & _). simpl in Hj. subst j.
  apply list_elem_of_lookup_2 in Hk.
  destruct (body_elem _ _ _ HI Hk) as (g & Hg & _ & ->). congruence.
Qed.

Lemma onHost_id w h : h = host w → mkWorld h (fibers w) (nextId w) = w.
Proof. intros ->. by destruct w. Qed.

Lemma callsOf_addCalls i cs h :
  callsOf i (addCalls cs h)
  = callsOf i h ++ (filter (fun x => x.1 = i) cs).*2.
Proof.
  unfold callsOf. by rewrite calls_addCalls, filter_app, fmap_app.
Qed.

Lemma others_owner w i :
  Inv w →
  Forall (fun l => l_owner l ≠ i)
         (omap heldBy (map_to_list (delete i (fibers w)))).
Proof.
  intros HI. apply Forall_forall. intros l Hin.
  apply list_elem_of_omap in Hin as ([j f] & Hjf%elem_of_map_to_list & Hl).
  apply lookup_delete_Some in Hjf as [Hne Hjf].
  unfold heldBy in Hl. simpl in Hl.
  pose proof (inv_fiber _ HI _ _ Hjf) as [_ Hok]. rewrite Hl in Hok.
  destruct Hok as (_ & _ & <- & _). done.
Qed.

(** The calls that one Escape press makes on behalf of instance [i]. *)
Lemma escape_calls w i :
  Inv w →
  (filter (fun x => x.1 = i)
          ((fun l => (l_owner l, l_onClose l)) <$> keydown (host w))).*2
  = match fibers w !! i with
    | Some f =>
        if isOpen (props f) && shouldDismissOnEscape (props f)
        then [onClose (props f)] else []
    | None => []
    end.
Proof.
  intros HI.
  set (g := fun l => (l_owner l, l_onClose l)).
  set (P := fun x : InstId * Callback => x.1 = i).
  assert ((filter P (g <$> omap heldBy (map_to_list (delete i (fibers w))))).*2
          = []) as Hrest.
  { pose proof (others_owner w i HI) as Hne.
    induction Hne as [|l ls Hl _ IH]; [done|]. csimpl.
    by rewrite filter_cons_False. }
  assert ((filter P (g <$> keydown (host w))).*2
          ≡ₚ (filter P (g <$> option_list (fibers w !! i ≫= escapeCleanup))).*2)
    as HP.
  { rewrite (view_keydown w i HI) at 1.
    by rewrite fmap_app, filter_app, fmap_app, Hrest, app_nil_r. }
  destruct (fibers w !! i) as [f|] eqn:Hi; simpl in HP.
  - pose proof (inv_fiber _ HI _ _ Hi) as [_ Hok].
    destruct (escapeCleanup f) as [l|]; simpl in HP.
    + destruct Hok as (-> & -> & Hown & Hcb). simpl.
      rewrite filter_cons_True in HP by done. simpl in HP.
      apply Permutation_singleton_r in HP. by rewrite HP, Hcb.
    + rewrite Hok. by apply Permutation_nil_r in HP.
  - by apply Permutation_nil_r in HP.
Qed.

Lemma step_click w i f path :
  Inv w → fibers w !! i = Some f → isOpen (props f) = true →
  step w (Click i path)
  = onHost (click i (modalContent (props f)) path) w.
Proof.
  intros HI Hi Ho. cbn [step].
  by destruct (find_root _ _ _ HI Hi Ho) as [k ->].
Qed.

(** Propagation never gets past the dialog. *)
Lemma bubble_stops_at_dialog i p xs outer ev h :
  bubble i (xs ++ dialog p :: outer) ev h
  = bubble i (xs ++ [dialog p]) ev h.
Proof.
  revert ev h. induction xs as [|x xs IH]; intros ev h; [done|].
  simpl. destruct (onClick_of x) as [k|]; [|apply IH].
  destruct (runHandler i k ev h) as [ev' h'].
  destruct (propagationStopped ev'); [done|apply IH].
Qed.

Lemma click_ignores_backdrop_flag i p b rest h :
  click i (modalContent p) (0 :: rest) h
  = click i (modalContent (setBackdrop b p)) (0 :: rest) h.
Proof.
  rewrite !click_enter.
  assert (dialog (setBackdrop b p) = dialog p) as -> by done.
  destruct (ancestry (dialog p) rest) as [ch|] eqn:Hch; [|done].
  destruct (ancestry_head _ _ _ Hch) as [ch' ->]. simpl.
  rewrite <- !app_assoc. simpl.
  by rewrite !(bubble_stops_at_dialog _ _ _ [_]).
Qed.
End reachable.

(** * The properties *)

(** ** The scroll lock *)




(** With two instances open, the style is already ['unset'] once the
    second is closed, while the first is still open. *)
Example stacked_release :
  openCount (run (init "auto")
               [Mount demo; Mount demo; Render 1 (setOpen false demo)]) = 1
  ∧ overflow (host (run (init "auto")
                      [Mount demo; Mount demo; Render 1 (setOpen false demo)]))
    = "unset".
Proof. split; reflexivity. Qed.


(** ** The order of the side effects *)

Lemma escapeClosure_open i p h :
  isOpen p = true →
  option_list (EvListen <$> escapeClosure i p h)
  = whenE (shouldDismissOnEscape p) [EvListen (listenerOf i p h)].
Proof.
  intros Ho. unfold escapeClosure. rewrite Ho.
  by destruct (shouldDismissOnEscape p).
Qed.

Lemma escapeDeps_open p q :
  isOpen p ≠ isOpen q → bool_decide (escapeDeps p ≠ escapeDeps q) = true.
Proof.
  intros Hne. apply bool_decide_eq_true. unfold escapeDeps. congruence.
Qed.

(** ** Dismissal *)

(** C5: for an open instance, a click on anything inside the dialog other
    than the built-in close button changes nothing, so [onClose] is not
    called; no click inside the dialog reaches the backdrop handler, so
    its outcome does not depend on [closeOnBackdropClick]; and a click on
    the backdrop itself calls [onClose], once, when backdrop dismissal is
    on. *)
Theorem backdrop_vs_interior (s0 : string) (acts : list Action)
    (i : InstId) (f : Fiber) :
  let w := run (init s0) acts in
  fibers w !! i = Some f → isOpen (props f) = true →
  (∀ rest, (∀ r, rest ≠ closeButtonIndex (props f) :: r) →
           step w (Click i (0 :: rest)) = w)
  ∧ (∀ rest b h,
       click i (modalContent (props f)) (0 :: rest) h
       = click i (modalContent (setBackdrop b (props f))) (0 :: rest) h)
  ∧ (shouldDismissOnBackdrop (props f) = true →
     calls (host (step w (Click i [])))
     = calls (host w) ++ [(i, onClose (props f))]).
Proof.
  intros w Hi Ho. pose proof (Inv_run s0 acts) as HI. fold w in HI.
  split_and!.
  - intros rest Hrest. rewrite (step_click _ _ _ _ HI Hi Ho).
    unfold onHost. rewrite click_interior by done. by apply onHost_id.
  - intros rest b h. apply click_ignores_backdrop_flag.
  - intros Hb. rewrite (step_click _ _ _ _ HI Hi Ho).
    unfold onHost. cbn [host]. rewrite click_backdrop, Hb.
    by rewrite invoke_addCalls, calls_addCalls.
Qed.

Lemma backdrop_vs_interior_witness :
  step (run (init "auto") [Mount demo]) (Click 0 [0; 1])
  = run (init "auto") [Mount demo]
  ∧ calls (host (step (run (init "auto") [Mount demo]) (Click 0 [])))
    = [(0, 7)].
Proof.
  pose proof (backdrop_vs_interior "auto" [Mount demo] 0
                (mkFiber demo (Some (mkListener 0 0 7)) true)
                eq_refl eq_refl) as (H1 & _ & H2).
  split.
  - apply (H1 [1]). intros r. vm_compute. discriminate.
  - exact (H2 eq_refl).
Defined.

(** C6: for an instance that dismisses on Escape, one Escape key press
    calls its [onClose] exactly once while it is open and not at all while
    it is closed. *)
Theorem escape_once (s0 : string) (acts : list Action)
    (i : InstId) (f : Fiber) :
  let w := run (init s0) acts in
  fibers w !! i = Some f → shouldDismissOnEscape (props f) = true →
  callsOf i (host (step w (KeyDown "Escape")))
  = callsOf i (host w)
    ++ (if isOpen (props f) then [onClose (props f)] else []).
Proof.
  intros w Hi He. pose proof (Inv_run s0 acts) as HI. fold w in HI.
  cbn [step]. unfold onHost. cbn [host].
  rewrite dispatchKeydown_eq, decide_True by done.
  rewrite callsOf_addCalls, (escape_calls _ _ HI), Hi, He.
  by rewrite andb_true_r.
Qed.

Lemma escape_once_witness :
  callsOf 0 (host (step (run (init "auto") [Mount demo]) (KeyDown "Escape")))
  = [7]
  ∧ callsOf 0 (host (step (run (init "auto") openThenClose)
                          (KeyDown "Escape")))
    = [].
Proof.
  split.
  - exact (escape_once "auto" [Mount demo] 0
             (mkFiber demo (Some (mkListener 0 0 7)) true) eq_refl eq_refl).
  - exact (escape_once "auto" openThenClose 0
             (mkFiber (setOpen false demo) None false) eq_refl eq_refl).
Defined.

(** C7: a closed instance renders [null], and between transitions the
    body holds no content of an instance that is closed. *)
Theorem closed_renders_nothing (s0 : string) (acts : list Action)
    (i : InstId) (f : Fiber) :
  let w := run (init s0) acts in
  fibers w !! i = Some f → isOpen (props f) = false →
  Modal (props f) = None ∧ ∀ c, (i, c) ∉ bodyChildren (host w).
Proof.
  intros w Hi Hc. pose proof (Inv_run s0 acts) as HI. fold w in HI. split.
  - unfold Modal. by rewrite Hc.
  - intros c Hin. destruct (body_elem _ _ _ HI Hin) as (g & Hg & Ho & _).
    congruence.
Qed.

Lemma closed_renders_nothing_witness :
  Modal (setOpen false demo) = None
  ∧ ∀ c, (0, c) ∉ bodyChildren (host (run (init "auto") openThenClose)).
Proof.
  exact (closed_renders_nothing "auto" openThenClose 0
           (mkFiber (setOpen false demo) None false) eq_refl eq_refl).
Defined.

(** C8: a key press or a click changes neither the props of any instance
    (so not [isOpen]) nor the overflow style, the listeners or the body;
    all it does is call [onClose] callbacks of mounted instances. *)
Theorem never_self_closes (s0 : string) (acts : list Action) (a : Action) :
  let w := run (init s0) acts in
  isEvent a = true →
  fibers (step w a) = fibers w
  ∧ nextId (step w a) = nextId w
  ∧ overflow (host (step w a)) = overflow (host w)
  ∧ keydown (host (step w a)) = keydown (host w)
  ∧ bodyChildren (host (step w a)) = bodyChildren (host w)
  ∧ ∃ cs,
      log (host (step w a))
      = log (host w) ++ ((fun c => EvCall c.1 c.2) <$> cs)
      ∧ ∀ j cb, (j, cb) ∈ cs →
                ∃ g, fibers w !! j = Some g ∧ cb = onClose (props g).
Proof.
  intros w Ha. pose proof (Inv_run s0 acts) as HI. fold w in HI.
  assert (∃ cs, step w a = onHost (addCalls cs) w
                ∧ ∀ j cb, (j, cb) ∈ cs →
                   ∃ g, fibers w !! j = Some g ∧ cb = onClose (props g))
    as (cs & -> & Hcs).
  { destruct a as [p|i p|i|key|i path]; try done; cbn [step].
    - unfold onHost. rewrite dispatchKeydown_eq. eexists. split; [done|].
      intros j cb Hin. destruct (decide _); [|by apply elem_of_nil in Hin].
      apply list_elem_of_fmap in Hin as (l & [= -> ->] & Hl).
      destruct (listener_fiber _ _ HI Hl) as (g & Hg & Hc).
      exists g. split; [done|].
      destruct (inv_fiber _ HI _ _ Hg) as [_ Hec]. rewrite Hc in Hec.
      by destruct Hec as (_ & _ & _ & ?).
    - destruct (list_find _ _) as [[k [j root]]|] eqn:Hfind; cycle 1.
      { exists []. split; [|by intros ? ? ?%elem_of_nil].
        unfold onHost. rewrite addCalls_nil. symmetry. by apply onHost_id. }
      apply list_find_Some in Hfind as (Hk & Hj & _). simpl in Hj. subst j.
      apply list_elem_of_lookup_2 in Hk.
      destruct (body_elem _ _ _ HI Hk) as (g & Hg & _ & ->).
      destruct (click_calls i (props g) path (host w)) as (cs & Hcl & Hcs).
      exists cs. unfold onHost. rewrite Hcl. split; [done|].
      intros j cb Hin. destruct Hcs as [->| ->].
      + by apply elem_of_nil in Hin.
      + apply list_elem_of_singleton in Hin as [= -> ->]. by exists g. }
  split_and!; try done. by exists cs.
Qed.

Lemma never_self_closes_witness :
  fibers (step (run (init "auto") [Mount demo]) (KeyDown "Escape"))
  = fibers (run (init "auto") [Mount demo])
  ∧ fibers (step (run (init "auto") [Mount demo]) (Click 0 []))
    = fibers (run (init "auto") [Mount demo]).
Proof.
  split.
  - exact (proj1 (never_self_closes "auto" [Mount demo] (KeyDown "Escape")
                    eq_refl)).
  - exact (proj1 (never_self_closes "auto" [Mount demo] (Click 0 [])
                    eq_refl)).
Defined.

(** C9: when the caller leaves out [closeOnBackdropClick] and
    [closeOnEscapeKey], both count as true: a click on the backdrop calls
    [onClose], and opening registers the Escape listener. *)
Theorem dismissal_defaults (o : bool) (cb : Callback) (t : option string)
    (ch : ReactNode) (ft : option ReactNode) (sz : option Size) :
  let p := mkProps o cb t ch ft sz None None in
  shouldDismissOnBackdrop p = true
  ∧ shouldDismissOnEscape p = true
  ∧ (∀ i h, click i (modalContent p) [] h = invoke i cb h)
  ∧ (∀ s0, keydown (host (step (init s0) (Mount (setOpen true p))))
           = [mkListener 0 0 cb]).
Proof. intros p. split_and!; done. Qed.

(** C10: an open instance renders the close button as the last child of
    the dialog, and a click on it calls [onClose], once, whatever the two
    dismissal flags are. *)
Theorem close_button_always (s0 : string) (acts : list Action)
    (i : InstId) (f : Fiber) :
  let w := run (init s0) acts in
  fibers w !! i = Some f → isOpen (props f) = true →
  (i, modalContent (props f)) ∈ bodyChildren (host w)
  ∧ kids_of (modalContent (props f)) !! 0 = Some (dialog (props f))
  ∧ kids_of (dialog (props f)) !! closeButtonIndex (props f)
    = Some (closeButton (props f))
  ∧ onClick_of (closeButton (props f))
    = Some (CloseButtonClick (onClose (props f)))
  ∧ calls (host (step w (Click i [0; closeButtonIndex (props f)])))
    = calls (host w) ++ [(i, onClose (props f))].
Proof.
  intros w Hi Ho. pose proof (Inv_run s0 acts) as HI. fold w in HI.
  split_and!; try done.
  - destruct (find_root _ _ _ HI Hi Ho) as [k Hk].
    apply list_find_Some in Hk as (Hk & _).
    by apply list_elem_of_lookup_2 in Hk.
  - destruct (dialog_kids (props f)) as (L & -> & _ & ->).
    by rewrite lookup_app_r, Nat.sub_diag.
  - rewrite (step_click _ _ _ _ HI Hi Ho). unfold onHost. cbn [host].
    rewrite click_closeButton by by eexists.
    by rewrite invoke_addCalls, calls_addCalls.
Qed.

Lemma close_button_always_witness :
  shouldDismissOnBackdrop demoNoDismiss = false
  ∧ shouldDismissOnEscape demoNoDismiss = false
  ∧ calls (host (step (run (init "auto") [Mount demoNoDismiss])
                      (Click 0 [0; 2])))
    = [(0, 7)].
Proof.
  split; [reflexivity|]. split; [reflexivity|].
  exact (proj2 (proj2 (proj2 (proj2
           (close_button_always "auto" [Mount demoNoDismiss] 0
              (mkFiber demoNoDismiss None true) eq_refl eq_refl))))).
Defined.

(** * Further properties of the component *)

Section more.
Implicit Types (w : World) (f : Fiber) (i : InstId) (p : ModalProps).
Implicit Types (h : Host) (l : Listener).

Lemma run_snoc w acts a : run w (acts ++ [a]) = step (run w acts) a.
Proof. unfold run. by rewrite foldl_app. Qed.

Lemma open_in_body w i f :
  Inv w → fibers w !! i = Some f → isOpen (props f) = true →
  (i, modalContent (props f)) ∈ bodyChildren (host w).
Proof.
  intros HI Hi Ho. rewrite (view_body w i HI), Hi. simpl.
  unfold Modal. rewrite Ho. left.
Qed.

Lemma closed_holds_nothing w i f :
  Inv w → fibers w !! i = Some f → isOpen (props f) = false →
  escapeCleanup f = None ∧ scrollCleanup f = false
  ∧ routed i (host w) = false.
Proof.
  intros HI Hi Hc. destruct (inv_fiber _ HI _ _ Hi) as [Hsc Hec].
  split_and!.
  - destruct (escapeCleanup f); [|done]. destruct Hec. congruence.
  - congruence.
  - by rewrite (routed_fiber _ _ HI), Hi.
Qed.

Lemma commitPortal_none_unrouted i h :
  routed i h = false → commitPortal i None h = h.
Proof. unfold commitPortal. by intros ->. Qed.

Lemma effectEscape_closed i p h :
  isOpen p = false → effectEscape i p h = (h, None).
Proof. unfold effectEscape. by intros ->. Qed.

Lemma effectScroll_closed p h :
  isOpen p = false → effectScroll p h = (h, false).
Proof. unfold effectScroll. by intros ->. Qed.

Lemma owners_sublist (L : list (InstId * Fiber)) :
  Forall (fun x => fiberOK x.1 x.2) L →
  l_owner <$> omap heldBy L `sublist_of` L.*1.
Proof.
  induction 1 as [|[j f] L [_ Hf] _ IH]; [done|]. csimpl in *.
  unfold heldBy at 1. simpl. destruct (escapeCleanup f) as [l|]; csimpl.
  - destruct Hf as (_ & _ & -> & _). by apply sublist_skip.
  - by apply sublist_cons.
Qed.
End more.

(** ** Keys and clicks that do nothing *)

(** X1: only the key named ['Escape'] is acted upon; any other key press
    leaves the page and every instance exactly as they were. *)
Theorem other_keys_ignored (w : World) (key : string) :
  key ≠ "Escape" → step w (KeyDown key) = w.
Proof.
  intros Hk. cbn [step]. unfold onHost.
  rewrite dispatchKeydown_eq, decide_False, addCalls_nil by done.
  by apply onHost_id.
Qed.

Lemma other_keys_ignored_witness :
  step (run (init "auto") [Mount demo]) (KeyDown "Enter")
  = run (init "auto") [Mount demo].
Proof. apply other_keys_ignored. discriminate. Defined.

(** X2: with [closeOnBackdropClick] false, a click on the backdrop of an
    open instance changes nothing: [onClose] is not called. *)
Theorem backdrop_click_disabled (s0 : string) (acts : list Action)
    (i : InstId) (f : Fiber) :
  let w := run (init s0) acts in
  fibers w !! i = Some f → isOpen (props f) = true →
  shouldDismissOnBackdrop (props f) = false →
  step w (Click i []) = w.
Proof.
  intros w Hi Ho Hb. pose proof (Inv_run s0 acts) as HI. fold w in HI.
  rewrite (step_click _ _ _ _ HI Hi Ho). unfold onHost.
  rewrite click_backdrop, Hb. by apply onHost_id.
Qed.

Lemma backdrop_click_disabled_witness :
  step (run (init "auto") [Mount demoNoDismiss]) (Click 0 [])
  = run (init "auto") [Mount demoNoDismiss].
Proof.
  exact (backdrop_click_disabled "auto" [Mount demoNoDismiss] 0
           (mkFiber demoNoDismiss None true) eq_refl eq_refl eq_refl).
Defined.

(** X3: a click on the icon inside the close button (the [svg] or its
    [path]) bubbles to the button and calls [onClose] exactly once. *)
Theorem close_icon_click (s0 : string) (acts : list Action)
    (i : InstId) (f : Fiber) (r : list nat) :
  let w := run (init s0) acts in
  fibers w !! i = Some f → isOpen (props f) = true →
  r = [0] ∨ r = [0; 0] →
  calls (host (step w (Click i (0 :: closeButtonIndex (props f) :: r))))
  = calls (host w) ++ [(i, onClose (props f))].
Proof.
  intros w Hi Ho Hr. pose proof (Inv_run s0 acts) as HI. fold w in HI.
  rewrite (step_click _ _ _ _ HI Hi Ho). unfold onHost. cbn [host].
  rewrite click_closeButton by (destruct Hr as [-> | ->]; by eexists).
  by rewrite invoke_addCalls, calls_addCalls.
Qed.

Lemma close_icon_click_witness :
  calls (host (step (run (init "auto") [Mount demoNoDismiss])
                    (Click 0 [0; 2; 0; 0])))
  = [(0, 7)].
Proof.
  exact (close_icon_click "auto" [Mount demoNoDismiss] 0
           (mkFiber demoNoDismiss None true) [0; 0] eq_refl eq_refl
           (or_intror eq_refl)).
Defined.

(** ** Closed instances *)

(** X4: a closed instance never touches the page: mounting it closed,
    re-rendering it closed with whatever props, and unmounting it while
    closed all leave the document (overflow style, listeners, body and
    the record of side effects) exactly as it was. *)
Theorem closed_is_inert (s0 : string) (acts : list Action) :
  let w := run (init s0) acts in
  (∀ p, isOpen p = false → host (step w (Mount p)) = host w)
  ∧ (∀ i f p,
       fibers w !! i = Some f → isOpen (props f) = false →
       isOpen p = false → host (step w (Render i p)) = host w)
  ∧ (∀ i f,
       fibers w !! i = Some f → isOpen (props f) = false →
       host (step w (Unmount i)) = host w).
Proof.
  intros w. pose proof (Inv_run s0 acts) as HI. fold w in HI.
  split_and!.
  - intros p Hp. cbn [step]. unfold mount_step, Modal. rewrite Hp. simpl.
    rewrite commitPortal_none_unrouted
      by by rewrite (routed_fiber _ _ HI), (lookup_nextId _ HI).
    by rewrite effectEscape_closed, effectScroll_closed.
  - intros i f p Hi Hf Hp. cbn [step]. unfold render_step, Modal.
    rewrite Hi, Hp. simpl.
    destruct (closed_holds_nothing _ _ _ HI Hi Hf) as (-> & -> & Hr).
    rewrite (commitPortal_none_unrouted _ _ Hr).
    unfold scrollDeps. rewrite Hf, Hp.
    rewrite (bool_decide_false (false ≠ false)) by tauto.
    destruct (bool_decide _); simpl;
      by rewrite ?effectEscape_closed.
  - intros i f Hi Hf. cbn [step]. unfold unmount_step. rewrite Hi.
    destruct (closed_holds_nothing _ _ _ HI Hi Hf) as (-> & -> & Hr).
    by rewrite (commitPortal_none_unrouted _ _ Hr).
Qed.

Lemma closed_is_inert_witness :
  host (step (run (init "auto") openThenClose) (Mount (setOpen false demo)))
  = host (run (init "auto") openThenClose)
  ∧ host (step (run (init "auto") openThenClose)
               (Render 0 (setOpen false demoNoDismiss)))
    = host (run (init "auto") openThenClose).
Proof.
  split.
  - exact (proj1 (closed_is_inert "auto" openThenClose)
             (setOpen false demo) eq_refl).
  - exact (proj1 (proj2 (closed_is_inert "auto" openThenClose))
             0 (mkFiber (setOpen false demo) None false)
             (setOpen false demoNoDismiss) eq_refl eq_refl eq_refl).
Defined.

(** ** Listeners *)

(** X5: between transitions no instance has two key listeners
    registered: the owners of the registered listeners are pairwise
    distinct. *)
Theorem one_listener_per_instance (s0 : string) (acts : list Action) :
  NoDup (l_owner <$> keydown (host (run (init s0) acts))).
Proof.
  pose proof (Inv_run s0 acts) as HI.
  rewrite (inv_keydown _ HI).
  apply (sublist_NoDup _ (map_to_list (fibers (run (init s0) acts))).*1);
    [apply NoDup_fst_map_to_list|].
  apply owners_sublist, Forall_forall.
  intros [i f] Hin%elem_of_map_to_list. by eapply inv_fiber.
Qed.

(** ** Transitions, field by field *)

Section transitions.
Implicit Types (w : World) (f : Fiber) (i : InstId) (p : ModalProps).
Implicit Types (h : Host) (l : Listener).

Lemma body_commit_append i c h :
  routed i h = false →
  bodyChildren (commitPortal i (Some c) h) = bodyChildren h ++ [(i, c)].
Proof. unfold commitPortal. by intros ->. Qed.

Lemma body_commit_update i c h :
  routed i h = true →
  bodyChildren (commitPortal i (Some c) h)
  = (fun x => if decide (x.1 = i) then (i, c) else x) <$> bodyChildren h.
Proof. unfold commitPortal. by intros ->. Qed.

Lemma body_commit_remove i h :
  bodyChildren (commitPortal i None h)
  = filter (fun x => x.1 ≠ i) (bodyChildren h).
Proof.
  unfold commitPortal. destruct (routed i h) eqn:Hr; [done|].
  rewrite filter_keep; [done|]. apply Forall_forall. intros x Hx <-.
  unfold routed in Hr. apply bool_decide_eq_false in Hr. apply Hr.
  by apply list_elem_of_fmap_2.
Qed.

Lemma bodyChildren_mount p w :
  bodyChildren (host (mount_step p w))
  = bodyChildren (commitPortal (nextId w) (Modal p) (host w)).
Proof.
  rewrite mount_step_eq. simpl.
  by rewrite bodyChildren_effectScroll, bodyChildren_effectEscape.
Qed.

Lemma bodyChildren_render i p w f :
  fibers w !! i = Some f →
  bodyChildren (host (render_step i p w))
  = bodyChildren (commitPortal i (Modal p) (host w)).
Proof.
  intros Hi. rewrite (render_step_eq _ _ _ _ Hi). simpl.
  destruct (bool_decide (escapeDeps _ ≠ _)),
    (bool_decide (scrollDeps _ ≠ _)); simpl;
    by rewrite ?bodyChildren_effectScroll, ?bodyChildren_effectEscape,
         ?bodyChildren_cleanupScroll, ?bodyChildren_cleanupEscape.
Qed.

Lemma bodyChildren_unmount i w f :
  fibers w !! i = Some f →
  bodyChildren (host (unmount_step i w))
  = bodyChildren (commitPortal i None (host w)).
Proof.
  intros Hi. unfold unmount_step. rewrite Hi. simpl.
  by rewrite bodyChildren_cleanupScroll, bodyChildren_cleanupEscape.
Qed.

Lemma overflow_effectScroll_open p h :
  isOpen p = true → overflow (effectScroll p h).1 = "hidden".
Proof. unfold effectScroll. by intros ->. Qed.

Lemma overflow_mount_open p w :
  isOpen p = true → overflow (host (mount_step p w)) = "hidden".
Proof.
  intros Ho. rewrite mount_step_eq. simpl.
  by apply overflow_effectScroll_open.
Qed.

Lemma scrollDeps_differ p q :
  isOpen p ≠ isOpen q → bool_decide (scrollDeps p ≠ scrollDeps q) = true.
Proof. intros Hne. by apply bool_decide_eq_true. Qed.

Lemma overflow_render_open i p w f :
  fibers w !! i = Some f → isOpen (props f) = false → isOpen p = true →
  overflow (host (render_step i p w)) = "hidden".
Proof.
  intros Hi Hf Ho. rewrite (render_step_eq _ _ _ _ Hi). simpl.
  rewrite scrollDeps_differ by congruence. simpl.
  by apply overflow_effectScroll_open.
Qed.

Lemma overflow_render_close i p w f :
  Inv w → fibers w !! i = Some f →
  isOpen (props f) = true → isOpen p = false →
  overflow (host (render_step i p w)) = "unset".
Proof.
  intros HI Hi Hf Hc. rewrite (render_step_eq _ _ _ _ Hi). simpl.
  destruct (inv_fiber _ HI _ _ Hi) as [Hsc _].
  rewrite scrollDeps_differ, escapeDeps_open by congruence. simpl.
  rewrite effectScroll_closed, effectEscape_closed by done. simpl.
  by rewrite Hsc, Hf.
Qed.

Lemma overflow_unmount_open i w f :
  Inv w → fibers w !! i = Some f → isOpen (props f) = true →
  overflow (host (unmount_step i w)) = "unset".
Proof.
  intros HI Hi Hf. unfold unmount_step. rewrite Hi. simpl.
  destruct (inv_fiber _ HI _ _ Hi) as [-> _]. by rewrite Hf.
Qed.

Lemma fibers_render_other i j p w :
  i ≠ j → fibers (render_step i p w) !! j = fibers w !! j.
Proof.
  intros Hne. destruct (fibers w !! i) as [f|] eqn:Hi.
  - destruct (fibers_render i p w f Hi) as (c1 & c2 & ->).
    by rewrite lookup_insert_ne.
  - unfold render_step. by rewrite Hi.
Qed.

Lemma fibers_unmount_other i j w :
  i ≠ j → fibers (unmount_step i w) !! j = fibers w !! j.
Proof. intros Hne. by rewrite fibers_unmount, lookup_delete_ne. Qed.

Lemma filter_remove_first (P : Listener → Prop) `{!∀ x, Decision (P x)}
    l (ls : list Listener) :
  ¬ P l → filter P (remove_first l ls) = filter P ls.
Proof.
  intros Hl. induction ls as [|x ls IH]; simpl; [done|].
  destruct (decide (x = l)) as [->|Hne].
  - by rewrite filter_cons_False.
  - by rewrite !filter_cons, IH.
Qed.

Lemma calls_frame h h' d :
  log h' = log h ++ d →
  Forall (fun e => match e with EvCall _ _ => False | _ => True end) d →
  calls h' = calls h.
Proof.
  intros Hl Hd. unfold calls. rewrite Hl, omap_app.
  assert (omap (fun e => match e with
                         | EvCall j cb => Some (j, cb)
                         | _ => None
                         end) d = []) as ->; [|by rewrite app_nil_r].
  clear Hl. induction Hd as [|e d He _ IH]; [done|]. csimpl. by destruct e.
Qed.

Lemma calls_render i p w :
  Inv w → calls (host (render_step i p w)) = calls (host w).
Proof.
  intros HI. destruct (fibers w !! i) as [f|] eqn:Hi;
    [|unfold render_step; by rewrite Hi].
  eapply calls_frame; [by apply render_log|].
  rewrite !Forall_app. unfold portalEvents, whenE. split_and!.
  - destruct (Modal p), (isOpen (props f)); by repeat constructor.
  - destruct (bool_decide _), (escapeCleanup f); by repeat constructor.
  - destruct (bool_decide _), (scrollCleanup f); by repeat constructor.
  - destruct (bool_decide _), (escapeClosure i p (host w));
      by repeat constructor.
  - destruct (bool_decide _), (isOpen p); by repeat constructor.
Qed.
End transitions.

Section transitions_more.
Implicit Types (w : World) (f : Fiber) (i : InstId) (p : ModalProps).
Implicit Types (h : Host) (l : Listener).

Lemma owners_NoDup w : Inv w → NoDup (l_owner <$> keydown (host w)).
Proof.
  intros HI. rewrite (inv_keydown _ HI).
  apply (sublist_NoDup _ (map_to_list (fibers w)).*1);
    [apply NoDup_fst_map_to_list|].
  apply owners_sublist, Forall_forall.
  intros [i f] Hin%elem_of_map_to_list. by eapply inv_fiber.
Qed.

Lemma remove_first_owner l (ls : list Listener) :
  NoDup (l_owner <$> ls) → l ∈ ls →
  remove_first l ls = filter (fun x => l_owner x ≠ l_owner l) ls.
Proof.
  induction ls as [|x ls IH]; [by intros _ ?%elem_of_nil|].
  csimpl. intros [Hx Hnd]%NoDup_cons Hin.
  destruct (decide (x = l)) as [->|Hne].
  - rewrite filter_cons_False by tauto.
    rewrite filter_keep; [done|]. apply Forall_forall. intros y Hy Heq.
    apply Hx. rewrite <- Heq. by apply list_elem_of_fmap_2.
  - apply elem_of_cons in Hin as [->|Hin]; [done|].
    rewrite filter_cons_True, IH; [done..|].
    intros Heq. apply Hx. rewrite Heq. by apply list_elem_of_fmap_2.
Qed.

Lemma keydown_unmount i w :
  Inv w →
  keydown (host (unmount_step i w))
  = filter (fun l => l_owner l ≠ i) (keydown (host w)).
Proof.
  intros HI.
  assert (∀ c, fibers w !! i ≫= escapeCleanup = c →
               c = None →
               filter (fun l => l_owner l ≠ i) (keydown (host w))
               = keydown (host w)) as Hnone.
  { intros c Hc ->. apply filter_keep, Forall_forall. intros l Hl <-.
    destruct (listener_fiber _ _ HI Hl) as (g & Hg & Hgl).
    rewrite Hg in Hc. simpl in Hc. congruence. }
  unfold unmount_step. destruct (fibers w !! i) as [f|] eqn:Hi; simpl.
  - rewrite keydown_cleanupScroll.
    destruct (escapeCleanup f) as [l|] eqn:Hl; simpl.
    + rewrite keydown_removeEventListener, keydown_commitPortal.
      pose proof (inv_fiber _ HI _ _ Hi) as [_ Hok]. rewrite Hl in Hok.
      destruct Hok as (_ & _ & <- & _).
      apply remove_first_owner; [by apply owners_NoDup|].
      by eapply held_in_keydown.
    + rewrite keydown_commitPortal. symmetry. by eapply Hnone.
  - symmetry. by eapply Hnone.
Qed.

(** What one step writes to the overflow style, and how the number of
    open instances moves with it. *)
Lemma step_writes_count w a :
  Inv w →
  ∃ d, overflowWrites (host (step w a)) = overflowWrites (host w) ++ d
       ∧ ((d = [] ∧ openCount (step w a) = openCount w)
          ∨ (d = ["unset"] ∧ openCount w = S (openCount (step w a)))
          ∨ (d = ["hidden"] ∧ openCount (step w a) = S (openCount w))).
Proof.
  intros HI. unfold overflowWrites.
  destruct a as [p|i p|i|key|i path]; cbn [step].
  - rewrite (mount_log _ _ HI), !writesOf_app.
    rewrite writesOf_portal, writesOf_listen. simpl.
    pose proof (openCount_mount p w HI) as Hc.
    destruct (isOpen p); simpl in *; eexists; (split; [done|]).
    + right. right. split; [done|lia].
    + left. split; [done|lia].
  - destruct (fibers w !! i) as [f|] eqn:Hi; cycle 1.
    { unfold render_step. rewrite Hi. exists []. rewrite app_nil_r. auto. }
    rewrite (render_log _ _ _ _ HI Hi), !writesOf_app.
    rewrite writesOf_portal.
    pose proof (openCount_render i p w f Hi) as Hc.
    destruct (inv_fiber _ HI _ _ Hi) as [-> _].
    unfold scrollDeps.
    destruct (bool_decide (escapeDeps _ ≠ _)); cbn [whenE];
      rewrite ?writesOf_listen, ?writesOf_unlisten;
      destruct (isOpen (props f)), (isOpen p); simpl in *;
      eexists; (split; [done|]);
      first [ left; split; [done|lia]
            | right; left; split; [done|lia]
            | right; right; split; [done|lia] ].
  - destruct (fibers w !! i) as [f|] eqn:Hi; cycle 1.
    { unfold unmount_step. rewrite Hi. exists []. rewrite app_nil_r. auto. }
    rewrite (unmount_log _ _ _ HI Hi), !writesOf_app.
    rewrite writesOf_portal, writesOf_unlisten.
    pose proof (openCount_unmount i w f Hi) as Hc.
    destruct (inv_fiber _ HI _ _ Hi) as [-> _].
    destruct (isOpen (props f)); simpl in *; eexists; (split; [done|]).
    + right. left. split; [done|lia].
    + left. split; [done|lia].
  - unfold onHost. cbn [host]. rewrite dispatchKeydown_eq.
    unfold addCalls. cbn [log]. rewrite writesOf_app, writesOf_calls.
    exists []. auto.
  - destruct (list_find _ _) as [[k [j root]]|];
      [|exists []; rewrite app_nil_r; auto].
    unfold onHost. cbn [host].
    destruct (click_addCalls i root path (host w)) as [cs ->].
    unfold addCalls. cbn [log]. rewrite writesOf_app, writesOf_calls.
    exists []. auto.
Qed.

(** While no two instances are open together, an open instance means a
    hidden overflow. *)
Lemma unstacked_from s0 acts : ∀ w,
  Inv w → ovOK s0 (host w) →
  (openCount w = 1 → overflow (host w) = "hidden") →
  Forall (fun v => (openCount v ≤ 1)%nat) (trace w acts) →
  openCount (run w acts) = 1 → overflow (host (run w acts)) = "hidden".
Proof.
  induction acts as [|a acts IH]; intros w HI Hov Hw Hall; [done|].
  cbn [trace] in Hall. apply Forall_cons in Hall as [Hle Hall].
  cbn [run foldl]. apply IH; try done.
  - by apply Inv_step.
  - by apply ovOK_step.
  - pose proof (ovOK_step s0 w a Hov) as Hov'. unfold ovOK in Hov, Hov'.
    destruct (step_writes_count w a HI) as (d & Hd & Hcase).
    rewrite Hd in Hov'. intros H1.
    destruct Hcase as [[-> Hc]|[[-> Hc]|[-> Hc]]].
    + rewrite app_nil_r in Hov'. rewrite Hov', <- Hov. apply Hw. lia.
    + lia.
    + by rewrite Hov', last_snoc.
Qed.
End transitions_more.

(** ** The body as the render target *)

(** X6: the portals of the open instances are kept in the body in the
    order in which they were opened: an opening instance is appended
    after all others, a re-render of an open instance replaces its
    content where it stands, and closing or unmounting an instance
    removes its content and nothing else. *)
Theorem portal_stacking (s0 : string) (acts : list Action) :
  let w := run (init s0) acts in
  (∀ p, isOpen p = true →
     bodyChildren (host (step w (Mount p)))
     = bodyChildren (host w) ++ [(nextId w, modalContent p)])
  ∧ (∀ i f p,
       fibers w !! i = Some f → isOpen (props f) = false → isOpen p = true →
       bodyChildren (host (step w (Render i p)))
       = bodyChildren (host w) ++ [(i, modalContent p)])
  ∧ (∀ i f p,
       fibers w !! i = Some f → isOpen (props f) = true → isOpen p = true →
       bodyChildren (host (step w (Render i p)))
       = (fun x => if decide (x.1 = i) then (i, modalContent p) else x)
           <$> bodyChildren (host w))
  ∧ (∀ i f p,
       fibers w !! i = Some f → isOpen p = false →
       bodyChildren (host (step w (Render i p)))
       = filter (fun x => x.1 ≠ i) (bodyChildren (host w)))
  ∧ (∀ i f,
       fibers w !! i = Some f →
       bodyChildren (host (step w (Unmount i)))
       = filter (fun x => x.1 ≠ i) (bodyChildren (host w))).
Proof.
  intros w. pose proof (Inv_run s0 acts) as HI. fold w in HI.
  split_and!.
  - intros p Ho. cbn [step]. rewrite bodyChildren_mount.
    unfold Modal. rewrite Ho. simpl. apply body_commit_append.
    by rewrite (routed_fiber _ _ HI), (lookup_nextId _ HI).
  - intros i f p Hi Hf Ho. cbn [step]. rewrite (bodyChildren_render _ _ _ _ Hi).
    unfold Modal. rewrite Ho. simpl. apply body_commit_append.
    by rewrite (routed_fiber _ _ HI), Hi.
  - intros i f p Hi Hf Ho. cbn [step]. rewrite (bodyChildren_render _ _ _ _ Hi).
    unfold Modal. rewrite Ho. simpl. apply body_commit_update.
    by rewrite (routed_fiber _ _ HI), Hi.
  - intros i f p Hi Hc. cbn [step]. rewrite (bodyChildren_render _ _ _ _ Hi).
    unfold Modal. rewrite Hc. simpl. apply body_commit_remove.
  - intros i f Hi. cbn [step]. rewrite (bodyChildren_unmount _ _ _ Hi).
    apply body_commit_remove.
Qed.

Lemma portal_stacking_witness :
  (bodyChildren (host (step (run (init "auto") [Mount demo])
                            (Mount demoNoEscape)))).*1 = [0; 1]
  ∧ (bodyChildren (host (step (run (init "auto") [Mount demo; Mount demo])
                              (Render 0 (setOpen false demo))))).*1 = [1].
Proof.
  split.
  - exact (f_equal (fmap fst)
             (proj1 (portal_stacking "auto" [Mount demo])
                demoNoEscape eq_refl)).
  - exact (f_equal (fmap fst)
             (proj1 (proj2 (proj2 (proj2
                (portal_stacking "auto" [Mount demo; Mount demo]))))
                0 (mkFiber demo (Some (mkListener 0 0 7)) true)
                (setOpen false demo) eq_refl eq_refl)).
Defined.

(** ** The overflow style, transition by transition *)

(** X7: the overflow style is whatever the last transition wrote,
    whatever the other instances are doing: every opening transition
    leaves it at ['hidden'], and every closing transition (by re-render or
    by unmount) leaves it at ['unset'] and leaves every other instance as
    it was, open ones included. *)
Theorem overflow_last_writer (s0 : string) (acts : list Action) :
  let w := run (init s0) acts in
  (∀ p, isOpen p = true → overflow (host (step w (Mount p))) = "hidden")
  ∧ (∀ i f p,
       fibers w !! i = Some f → isOpen (props f) = false → isOpen p = true →
       overflow (host (step w (Render i p))) = "hidden")
  ∧ (∀ i f p,
       fibers w !! i = Some f → isOpen (props f) = true → isOpen p = false →
       overflow (host (step w (Render i p))) = "unset"
       ∧ ∀ j, i ≠ j → fibers (step w (Render i p)) !! j = fibers w !! j)
  ∧ (∀ i f,
       fibers w !! i = Some f → isOpen (props f) = true →
       overflow (host (step w (Unmount i))) = "unset"
       ∧ ∀ j, i ≠ j → fibers (step w (Unmount i)) !! j = fibers w !! j).
Proof.
  intros w. pose proof (Inv_run s0 acts) as HI. fold w in HI.
  split_and!.
  - intros p Ho. by apply overflow_mount_open.
  - intros i f p Hi Hf Ho. by eapply overflow_render_open.
  - intros i f p Hi Hf Hc. split.
    + by eapply overflow_render_close.
    + intros j Hne. by apply fibers_render_other.
  - intros i f Hi Hf. split.
    + by eapply overflow_unmount_open.
    + intros j Hne. by apply fibers_unmount_other.
Qed.

Lemma overflow_last_writer_witness :
  overflow (host (step (run (init "auto") [Mount demo; Mount demo])
                       (Render 1 (setOpen false demo)))) = "unset"
  ∧ fibers (step (run (init "auto") [Mount demo; Mount demo])
                 (Render 1 (setOpen false demo))) !! 0
    = Some (mkFiber demo (Some (mkListener 0 0 7)) true).
Proof.
  pose proof (proj1 (proj2 (proj2
                (overflow_last_writer "auto" [Mount demo; Mount demo])))
                1 (mkFiber demo (Some (mkListener 1 1 7)) true)
                (setOpen false demo) eq_refl eq_refl eq_refl) as [H1 H2].
  split; [exact H1|]. exact (H2 0 ltac:(discriminate)).
Defined.

(** X8: as long as no two instances are ever open together, the body
    scroll is locked whenever an instance is open: between transitions,
    one open instance means the overflow style is ['hidden']. *)
Theorem unstacked_scroll_lock (s0 : string) (acts : list Action) :
  Forall (fun v => (openCount v ≤ 1)%nat) (trace (init s0) acts) →
  openCount (run (init s0) acts) = 1 →
  overflow (host (run (init s0) acts)) = "hidden".
Proof.
  intros Hall H1. apply (unstacked_from s0); try done.
  - apply Inv_init.
Qed.

Lemma unstacked_scroll_lock_witness :
  overflow (host (run (init "auto")
                    (openThenClose ++ [Mount demoNoEscape]))) = "hidden".
Proof.
  apply unstacked_scroll_lock.
  - repeat constructor.
  - reflexivity.
Defined.

(** ** Re-rendering an open instance *)

(** X9: re-rendering an open instance as open never touches the overflow
    style.  If [onClose] and the Escape flag are what they were, nothing
    at all is recorded and the listeners stay as they are, whatever else
    changed in the props; otherwise the old listener (if any) is removed
    and a new one is registered (if the instance still dismisses on
    Escape). *)
Theorem rerender_while_open (s0 : string) (acts : list Action)
    (i : InstId) (f : Fiber) (p : ModalProps) :
  let w := run (init s0) acts in
  fibers w !! i = Some f → isOpen (props f) = true → isOpen p = true →
  overflow (host (step w (Render i p))) = overflow (host w)
  ∧ (escapeDeps (props f) = escapeDeps p →
     log (host (step w (Render i p))) = log (host w)
     ∧ keydown (host (step w (Render i p))) = keydown (host w))
  ∧ (escapeDeps (props f) ≠ escapeDeps p →
     log (host (step w (Render i p)))
     = log (host w)
       ++ option_list (EvUnlisten <$> escapeCleanup f)
       ++ whenE (shouldDismissOnEscape p) [EvListen (listenerOf i p (host w))]).
Proof.
  intros w Hi Hf Ho. pose proof (Inv_run s0 acts) as HI. fold w in HI.
  assert (bool_decide (scrollDeps (props f) ≠ scrollDeps p) = false) as Hsd.
  { apply bool_decide_eq_false. unfold scrollDeps. rewrite Hf, Ho. tauto. }
  split_and!.
  - cbn [step]. rewrite (render_step_eq _ _ _ _ Hi). simpl. rewrite Hsd.
    destruct (bool_decide (escapeDeps _ ≠ _)); simpl;
      by rewrite ?overflow_effectEscape, ?overflow_cleanupEscape,
           ?overflow_commitPortal.
  - intros Hd. split.
    + cbn [step]. rewrite (render_log _ _ _ _ HI Hi). rewrite Hsd.
      rewrite bool_decide_false by tauto.
      unfold Modal. rewrite Hf, Ho. simpl. by rewrite app_nil_r.
    + cbn [step]. rewrite (render_step_eq _ _ _ _ Hi). simpl. rewrite Hsd.
      rewrite bool_decide_false by tauto. simpl.
      apply keydown_commitPortal.
  - intros Hd. cbn [step]. rewrite (render_log _ _ _ _ HI Hi). rewrite Hsd.
    rewrite bool_decide_true by done.
    rewrite (escapeClosure_open _ _ _ Ho).
    unfold Modal. rewrite Hf, Ho. simpl. by rewrite app_nil_r.
Qed.

Lemma rerender_while_open_witness :
  log (host (step (run (init "auto") [Mount demo])
                  (Render 0 (mkProps true 7 None "Other" None (Some lg)
                               None (Some true)))))
  = log (host (run (init "auto") [Mount demo]))
  ∧ log (host (step (run (init "auto") [Mount demo])
                    (Render 0 (mkProps true 8 None "Other" None None
                                 None None))))
    = log (host (run (init "auto") [Mount demo]))
      ++ [EvUnlisten (mkListener 0 0 7); EvListen (mkListener 1 0 8)].
Proof.
  split.
  - exact (proj1 (proj1 (proj2
             (rerender_while_open "auto" [Mount demo] 0
                (mkFiber demo (Some (mkListener 0 0 7)) true)
                (mkProps true 7 None "Other" None (Some lg) None (Some true))
                eq_refl eq_refl eq_refl)) eq_refl)).
  - exact (proj2 (proj2
             (rerender_while_open "auto" [Mount demo] 0
                (mkFiber demo (Some (mkListener 0 0 7)) true)
                (mkProps true 8 None "Other" None None None None)
                eq_refl eq_refl eq_refl)) ltac:(discriminate)).
Defined.

(** X10: the registered listener always calls the [onClose] of the last
    render: after an instance has been re-rendered open and dismissing on
    Escape, with whatever callback, one Escape key press calls that
    callback once on its behalf, and no earlier one. *)
Theorem no_stale_callback (s0 : string) (acts : list Action)
    (i : InstId) (f : Fiber) (p : ModalProps) :
  let w := run (init s0) acts in
  fibers w !! i = Some f →
  isOpen p = true → shouldDismissOnEscape p = true →
  callsOf i (host (step (step w (Render i p)) (KeyDown "Escape")))
  = callsOf i (host w) ++ [onClose p].
Proof.
  intros w Hi Ho He. pose proof (Inv_run s0 acts) as HI. fold w in HI.
  pose proof (Inv_render i p w HI) as HI'.
  cbn [step]. unfold onHost. cbn [host].
  rewrite dispatchKeydown_eq, decide_True by done.
  rewrite callsOf_addCalls, (escape_calls _ _ HI').
  destruct (fibers_render i p w f Hi) as (c1 & c2 & ->).
  rewrite lookup_insert_eq. simpl. rewrite Ho, He. simpl.
  unfold callsOf. by rewrite calls_render.
Qed.

Lemma no_stale_callback_witness :
  callsOf 0 (host (step (step (run (init "auto") [Mount demo])
                              (Render 0 (mkProps true 8 None "Other" None
                                           None None None)))
                        (KeyDown "Escape")))
  = [8].
Proof.
  exact (no_stale_callback "auto" [Mount demo] 0
           (mkFiber demo (Some (mkListener 0 0 7)) true)
           (mkProps true 8 None "Other" None None None None)
           eq_refl eq_refl eq_refl).
Defined.

(** ** Teardown *)

(** X11: unmounting an instance, open or closed, leaves nothing of it
    behind and takes nothing of the others away: its fiber is gone, the
    registered listeners are exactly the former ones of the other
    instances, in their order, and so are the children of the body. *)
Theorem unmount_teardown (s0 : string) (acts : list Action) (i : InstId) :
  let w := run (init s0) acts in
  fibers (step w (Unmount i)) = delete i (fibers w)
  ∧ keydown (host (step w (Unmount i)))
    = filter (fun l => l_owner l ≠ i) (keydown (host w))
  ∧ bodyChildren (host (step w (Unmount i)))
    = filter (fun x => x.1 ≠ i) (bodyChildren (host w)).
Proof.
  intros w. pose proof (Inv_run s0 acts) as HI. fold w in HI.
  split_and!.
  - apply fibers_unmount.
  - by apply keydown_unmount.
  - cbn [step]. destruct (fibers w !! i) as [f|] eqn:Hi.
    + rewrite (bodyChildren_unmount _ _ _ Hi). apply body_commit_remove.
    + unfold unmount_step. rewrite Hi.
      rewrite filter_keep; [done|]. apply Forall_forall.
      intros [j c] Hin. simpl. intros ->.
      destruct (body_elem _ _ _ HI Hin) as (g & Hg & _). congruence.
Qed.

(** * The caller *)

Section showcase.
Implicit Types (w : World) (f : Fiber).

Lemma lone_fiber_host w f :
  Inv w → fibers w = {[0 := f]} →
  keydown (host w) = option_list (escapeCleanup f)
  ∧ bodyChildren (host w) = option_list ((0,.) <$> Modal (props f)).
Proof.
  intros HI Hf. pose proof (inv_keydown _ HI) as Hk.
  pose proof (inv_body _ HI) as Hb.
  rewrite Hf, map_to_list_singleton in Hk, Hb. simpl in Hk, Hb.
  unfold heldBy in Hk. unfold portalOf in Hb. simpl in Hk, Hb. split.
  - destruct (escapeCleanup f); simpl.
    + by apply Permutation_singleton_r.
    + by apply Permutation_nil_r.
  - destruct (Modal (props f)); simpl in *.
    + by apply Permutation_singleton_r.
    + by apply Permutation_nil_r.
Qed.

Lemma event_frame w a :
  isEvent a = true → ∃ cs, step w a = onHost (addCalls cs) w.
Proof.
  destruct a as [p|i p|i|key|i path]; try done; intros _; cbn [step].
  - unfold onHost. rewrite dispatchKeydown_eq. by eexists.
  - destruct (list_find _ _) as [[k [j root]]|].
    + unfold onHost.
      destruct (click_addCalls i root path (host w)) as [cs ->].
      by eexists.
    + exists []. unfold onHost. rewrite addCalls_nil. symmetry.
      by apply onHost_id.
Qed.

Lemma overflow_render_stay i p w f :
  fibers w !! i = Some f → isOpen (props f) = isOpen p →
  overflow (host (render_step i p w)) = overflow (host w).
Proof.
  intros Hi Ho. rewrite (render_step_eq _ _ _ _ Hi). simpl.
  rewrite (bool_decide_false (scrollDeps _ ≠ _)) by (unfold scrollDeps; tauto).
  destruct (bool_decide (escapeDeps _ ≠ _)); simpl;
    by rewrite ?overflow_effectEscape, ?overflow_cleanupEscape,
         ?overflow_commitPortal.
Qed.

Lemma app_snoc_ne {A} (xs : list A) (x : A) : xs ++ [x] ≠ xs.
Proof.
  intros H. apply (f_equal length) in H. rewrite length_app in H.
  simpl in H. lia.
Qed.

Lemma ShowcaseInv_mount s0 : ShowcaseInv s0 (mountShowcase s0).
Proof.
  split; [| |done].
  - by exists [Mount (showcaseModal false 0)].
  - exists (mkFiber (showcaseModal false 0) None false), 0.
    split_and!; [done..|simpl; lia].
Qed.

Lemma ShowcaseInv_rerender s0 b s :
  ShowcaseInv s0 s → ShowcaseInv s0 (rerender b s).
Proof.
  intros [[acts Hr] (f & k & Hf & Hp & Hlt) Hh].
  assert (fibers (page s) !! 0 = Some f) as Hi
    by by rewrite Hf, lookup_singleton_eq.
  split; simpl.
  - exists (acts ++ [Render 0 (showcaseModal b (renders s))]).
    by rewrite run_snoc, Hr.
  - destruct (fibers_render 0 (showcaseModal b (renders s)) _ _ Hi)
      as (c1 & c2 & ->).
    do 2 eexists. split_and!; [by rewrite Hf, insert_singleton_eq|done|lia].
  - intros ->. destruct (isModalOpen s) eqn:Hs.
    + rewrite (overflow_render_stay _ _ _ _ Hi); [by apply Hh|].
      by rewrite Hp.
    + eapply overflow_render_open; [done| |done]. by rewrite Hp.
Qed.

Lemma ShowcaseInv_set s0 b s :
  ShowcaseInv s0 s → ShowcaseInv s0 (setIsModalOpen b s).
Proof.
  intros HS. unfold setIsModalOpen. case_bool_decide; [done|].
  by apply ShowcaseInv_rerender.
Qed.

Lemma ShowcaseInv_event s0 a s :
  isEvent a = true → ShowcaseInv s0 s →
  ShowcaseInv s0 (mkShowcase (isModalOpen s) (renders s) (step (page s) a)).
Proof.
  intros Ha [[acts Hr] Hf Hh]. split; simpl.
  - exists (acts ++ [a]). by rewrite run_snoc, Hr.
  - by destruct (event_frame (page s) a Ha) as [cs ->].
  - by destruct (event_frame (page s) a Ha) as [cs ->].
Qed.

Lemma ShowcaseInv_step s0 s e :
  ShowcaseInv s0 s → ShowcaseInv s0 (showcaseStep s e).
Proof.
  intros HS. destruct e as [| | |key|path]; cbn [showcaseStep].
  - by apply ShowcaseInv_set.
  - destruct (isModalOpen s); [by apply ShowcaseInv_set|done].
  - by apply ShowcaseInv_rerender.
  - unfold dispatch. cbv zeta. case_bool_decide.
    + by apply (ShowcaseInv_event s0 (KeyDown key)).
    + by apply ShowcaseInv_set, (ShowcaseInv_event s0 (KeyDown key)).
  - unfold dispatch. cbv zeta. case_bool_decide.
    + by apply (ShowcaseInv_event s0 (Click 0 path)).
    + by apply ShowcaseInv_set, (ShowcaseInv_event s0 (Click 0 path)).
Qed.

Lemma ShowcaseInv_run s0 evs : ShowcaseInv s0 (runShowcase s0 evs).
Proof.
  unfold runShowcase.
  assert (∀ s, ShowcaseInv s0 s → ShowcaseInv s0 (foldl showcaseStep s evs))
    as H.
  { induction evs as [|e evs IH]; intros s HS; simpl; [done|].
    by apply IH, ShowcaseInv_step. }
  apply H, ShowcaseInv_mount.
Qed.

Lemma ShowcaseInv_Inv s0 s : ShowcaseInv s0 s → Inv (page s).
Proof. intros [[acts ->] _ _]. apply Inv_run. Qed.

(** The page while the modal is open, and while it is closed. *)
Lemma showcase_open_host s0 s :
  ShowcaseInv s0 s → isModalOpen s = true →
  ∃ k l, fibers (page s) !! 0
         = Some (mkFiber (showcaseModal true k) (Some l) true)
         ∧ k < renders s
         ∧ l_owner l = 0 ∧ l_onClose l = k
         ∧ keydown (host (page s)) = [l]
         ∧ bodyChildren (host (page s))
           = [(0, modalContent (showcaseModal true k))].
Proof.
  intros HS Ho. pose proof (ShowcaseInv_Inv _ _ HS) as HI.
  destruct (sc_fiber _ _ HS) as (f & k & Hf & Hp & Hlt). rewrite Ho in Hp.
  assert (fibers (page s) !! 0 = Some f) as Hi
    by by rewrite Hf, lookup_singleton_eq.
  destruct (lone_fiber_host _ _ HI Hf) as [Hk Hb].
  destruct (inv_fiber _ HI _ _ Hi) as [Hsc Hec].
  rewrite Hp in Hsc, Hec, Hb. simpl in Hsc, Hec.
  destruct f as [pf [l|] c]; simpl in *; [|done]. subst pf c.
  destruct Hec as (_ & _ & Hown & Hcb). by exists k, l.
Qed.

Lemma showcase_closed_host s0 s :
  ShowcaseInv s0 s → isModalOpen s = false →
  keydown (host (page s)) = [] ∧ bodyChildren (host (page s)) = [].
Proof.
  intros HS Hc. pose proof (ShowcaseInv_Inv _ _ HS) as HI.
  destruct (sc_fiber _ _ HS) as (f & k & Hf & Hp & _). rewrite Hc in Hp.
  assert (fibers (page s) !! 0 = Some f) as Hi
    by by rewrite Hf, lookup_singleton_eq.
  destruct (lone_fiber_host _ _ HI Hf) as [Hk Hb].
  destruct (closed_holds_nothing _ _ _ HI Hi) as (Hec & _ & _);
    [by rewrite Hp|].
  by rewrite Hk, Hb, Hec, Hp.
Qed.

Lemma showcase_close s0 s :
  ShowcaseInv s0 s → isModalOpen s = true →
  isModalOpen (setIsModalOpen false s) = false
  ∧ overflow (host (page (setIsModalOpen false s))) = "unset".
Proof.
  intros HS Ho. pose proof (ShowcaseInv_Inv _ _ HS) as HI.
  destruct (showcase_open_host _ _ HS Ho) as (k & l & Hi & _).
  unfold setIsModalOpen. rewrite Ho. simpl. split; [done|].
  by eapply overflow_render_close.
Qed.
End showcase.

Section showcase_events.
Implicit Types (w : World) (f : Fiber).

Lemma dispatch_closes s0 (s : Showcase) a :
  ShowcaseInv s0 s → isModalOpen s = true → isEvent a = true →
  calls (host (step (page s) a)) ≠ calls (host (page s)) →
  isModalOpen (dispatch a s) = false
  ∧ overflow (host (page (dispatch a s))) = "unset"
  ∧ keydown (host (page (dispatch a s))) = []
  ∧ bodyChildren (host (page (dispatch a s))) = [].
Proof.
  intros HS Ho Ha Hne. unfold dispatch. cbv zeta.
  rewrite bool_decide_false by done.
  pose proof (ShowcaseInv_event s0 a s Ha HS) as HS'.
  destruct (showcase_close _ _ HS' Ho) as [Hc Hov].
  split_and!; [done..| |];
    by apply (showcase_closed_host s0 _ (ShowcaseInv_set _ _ _ HS')).
Qed.

Lemma dispatch_nothing (s : Showcase) a :
  step (page s) a = page s → dispatch a s = s.
Proof.
  intros Hw. unfold dispatch. cbv zeta. rewrite Hw.
  rewrite bool_decide_true by done. by destruct s.
Qed.
End showcase_events.

(** X12: in the showcase page the state [isModalOpen] and the document
    always agree between user events: while it is true the overflow style
    is ['hidden'], exactly one key listener is registered, it calls the
    [onClose] of the last render, and the body holds the modal's content;
    while it is false no listener is registered and the body is empty. *)
Theorem showcase_consistent (s0 : string) (evs : list UserEvent) :
  let s := runShowcase s0 evs in
  if isModalOpen s then
    overflow (host (page s)) = "hidden"
    ∧ ∃ k l, l_owner l = 0 ∧ l_onClose l = k
             ∧ keydown (host (page s)) = [l]
             ∧ bodyChildren (host (page s))
               = [(0, modalContent (showcaseModal true k))]
  else
    keydown (host (page s)) = [] ∧ bodyChildren (host (page s)) = [].
Proof.
  intros s. pose proof (ShowcaseInv_run s0 evs) as HS. fold s in HS.
  destruct (isModalOpen s) eqn:Ho.
  - split; [by apply (sc_hidden _ _ HS)|].
    destruct (showcase_open_host _ _ HS Ho)
      as (k & l & _ & _ & Hown & Hcb & Hk & Hb).
    by exists k, l.
  - by apply (showcase_closed_host s0).
Qed.

(** X13: in the showcase page each way of dismissing the open modal
    closes it completely: after Escape, a click on the backdrop, a click
    on the close button or a click on a footer button, [isModalOpen] is
    false, the overflow style is ['unset'], no key listener is left and
    the body is empty. *)
Theorem showcase_dismissal (s0 : string) (evs : list UserEvent)
    (e : UserEvent) :
  let s := runShowcase s0 evs in
  isModalOpen s = true → isDismissal e = true →
  isModalOpen (showcaseStep s e) = false
  ∧ overflow (host (page (showcaseStep s e))) = "unset"
  ∧ keydown (host (page (showcaseStep s e))) = []
  ∧ bodyChildren (host (page (showcaseStep s e))) = [].
Proof.
  intros s Ho He. pose proof (ShowcaseInv_run s0 evs) as HS. fold s in HS.
  pose proof (ShowcaseInv_Inv _ _ HS) as HI.
  destruct (showcase_open_host _ _ HS Ho)
    as (k & l & Hi & _ & Hown & Hcb & Hk & Hb).
  destruct e as [| | |key|path]; try done; cbn [showcaseStep].
  - rewrite Ho. destruct (showcase_close _ _ HS Ho) as [Hc Hov].
    split_and!; [done..| |];
      by apply (showcase_closed_host s0 _ (ShowcaseInv_set _ _ _ HS)).
  - apply bool_decide_eq_true in He as ->.
    apply (dispatch_closes s0); [done..|].
    cbn [step]. unfold onHost. cbn [host].
    rewrite dispatchKeydown_eq, decide_True, calls_addCalls by done.
    rewrite Hk. apply app_snoc_ne.
  - assert (path = [] ∨ path = [0; 3]) as Hpath.
    { destruct path as [|[|?] [|[|[|[|[|?]]]] [|? ?]]]; try done; auto. }
    apply (dispatch_closes s0); [done..|].
    rewrite (step_click _ _ _ _ HI Hi eq_refl). unfold onHost. cbn [host].
    destruct Hpath as [-> | ->].
    + rewrite click_backdrop. simpl.
      rewrite invoke_addCalls, calls_addCalls. apply app_snoc_ne.
    + change 3 with (closeButtonIndex (showcaseModal true k)).
      rewrite click_closeButton by by eexists.
      rewrite invoke_addCalls, calls_addCalls. apply app_snoc_ne.
Qed.

Lemma showcase_dismissal_witness :
  isModalOpen (showcaseStep (runShowcase "auto" [ClickOpenButton])
                            (PressKey "Escape")) = false
  ∧ overflow (host (page (showcaseStep
                            (runShowcase "auto"
                               [ClickOpenButton; OtherStateChange])
                            (ClickModal [0; 3])))) = "unset".
Proof.
  split.
  - exact (proj1 (showcase_dismissal "auto" [ClickOpenButton]
                    (PressKey "Escape") eq_refl eq_refl)).
  - exact (proj1 (proj2 (showcase_dismissal "auto"
                    [ClickOpenButton; OtherStateChange]
                    (ClickModal [0; 3]) eq_refl eq_refl))).
Defined.

(** X14: in the showcase page a key other than Escape, and a click
    inside the dialog that is not on the close button or a footer button,
    change nothing: neither the state nor the document. *)
Theorem showcase_other_input (s0 : string) (evs : list UserEvent) :
  let s := runShowcase s0 evs in
  (∀ key, key ≠ "Escape" → showcaseStep s (PressKey key) = s)
  ∧ (∀ rest, (∀ r, rest ≠ 3 :: r) →
             showcaseStep s (ClickModal (0 :: rest)) = s).
Proof.
  intros s. pose proof (ShowcaseInv_run s0 evs) as HS. fold s in HS.
  pose proof (ShowcaseInv_Inv _ _ HS) as HI. split.
  - intros key Hk. cbn [showcaseStep]. apply dispatch_nothing.
    cbn [step]. unfold onHost.
    rewrite dispatchKeydown_eq, decide_False, addCalls_nil by done.
    by apply onHost_id.
  - intros rest Hrest. cbn [showcaseStep]. apply dispatch_nothing.
    destruct (isModalOpen s) eqn:Ho.
    + destruct (showcase_open_host _ _ HS Ho) as (k & l & Hi & _).
      rewrite (step_click _ _ _ _ HI Hi eq_refl). unfold onHost.
      rewrite click_interior; [by apply onHost_id|].
      by change (closeButtonIndex (showcaseModal true k)) with 3.
    + destruct (showcase_closed_host _ _ HS Ho) as [_ Hb].
      cbn [step]. by rewrite Hb.
Qed.

Lemma showcase_other_input_witness :
  showcaseStep (runShowcase "auto" [ClickOpenButton]) (PressKey "Enter")
  = runShowcase "auto" [ClickOpenButton]
  ∧ showcaseStep (runShowcase "auto" [ClickOpenButton]) (ClickModal [0; 1])
    = runShowcase "auto" [ClickOpenButton].
Proof.
  split.
  - apply (proj1 (showcase_other_input "auto" [ClickOpenButton])).
    discriminate.
  - apply (proj2 (showcase_other_input "auto" [ClickOpenButton])).
    discriminate.
Defined.

(** X15: because the page passes a new [() => setIsModalOpen(false)] on
    every render, every render of the page while the modal is open (a
    keystroke in the form, say) removes the registered key listener and
    registers a new one; the modal stays open and the overflow style is
    not touched. *)
Theorem showcase_resubscribes (s0 : string) (evs : list UserEvent) :
  let s := runShowcase s0 evs in
  isModalOpen s = true →
  isModalOpen (showcaseStep s OtherStateChange) = true
  ∧ overflow (host (page (showcaseStep s OtherStateChange))) = "hidden"
  ∧ ∃ l, keydown (host (page s)) = [l]
         ∧ log (host (page (showcaseStep s OtherStateChange)))
           = log (host (page s))
             ++ [EvUnlisten l;
                 EvListen (mkListener (fresh (host (page s))) 0 (renders s))].
Proof.
  intros s Ho. pose proof (ShowcaseInv_run s0 evs) as HS. fold s in HS.
  pose proof (ShowcaseInv_Inv _ _ HS) as HI.
  destruct (showcase_open_host _ _ HS Ho)
    as (k & l & Hi & Hlt & Hown & Hcb & Hk & Hb).
  cbn [showcaseStep]. rewrite Ho. split; [done|]. split.
  - apply (sc_hidden s0 _ (ShowcaseInv_rerender s0 true s HS) eq_refl).
  - exists l. split; [done|]. simpl. rewrite (render_log _ _ _ _ HI Hi).
    rewrite bool_decide_true
      by (unfold escapeDeps; simpl; intros [= ?]; lia).
    by rewrite (bool_decide_false (scrollDeps _ ≠ _)) by (simpl; tauto).
Qed.

Lemma showcase_resubscribes_witness :
  isModalOpen (showcaseStep (runShowcase "auto" [ClickOpenButton])
                            OtherStateChange) = true
  ∧ keydown (host (page (showcaseStep (runShowcase "auto" [ClickOpenButton])
                                      OtherStateChange)))
    = [mkListener 1 0 2].
Proof.
  split.
  - exact (proj1 (showcase_resubscribes "auto" [ClickOpenButton] eq_refl)).
  - reflexivity.
Defined.

(** ** Several instances and one key press *)

(** X16: one Escape key press reaches every open instance that dismisses
    on Escape, not only the one opened last: the callbacks called are the
    [onClose] of the registered listeners, one call per listener in the
    order of registration, and their number is the number of open
    instances that dismiss on Escape. *)
Theorem escape_reaches_all (s0 : string) (acts : list Action) :
  let w := run (init s0) acts in
  calls (host (step w (KeyDown "Escape")))
  = calls (host w)
    ++ ((fun l => (l_owner l, l_onClose l)) <$> keydown (host w))
  ∧ length (calls (host (step w (KeyDown "Escape"))))
    = length (calls (host w)) + openEscapeCount w.
Proof.
  intros w. pose proof (Inv_run s0 acts) as HI. fold w in HI.
  assert (calls (host (step w (KeyDown "Escape")))
          = calls (host w)
            ++ ((fun l => (l_owner l, l_onClose l)) <$> keydown (host w)))
    as Hc.
  { cbn [step]. unfold onHost. cbn [host].
    by rewrite dispatchKeydown_eq, decide_True, calls_addCalls. }
  split; [done|].
  by rewrite Hc, length_app, length_fmap, (keydown_count _ HI).
Qed.

(** * The scroll lock on the page *)

Section page_lock.
Implicit Types (w : World) (f : Fiber) (i : InstId) (p : ModalProps).

Lemma trace_last w acts : run w acts ∈ trace w acts.
Proof.
  revert w. induction acts as [|a acts IH]; intros w; cbn [trace].
  - left.
  - right. apply IH.
Qed.

Lemma open_exists w :
  0 < openCount w →
  ∃ i f, fibers w !! i = Some f ∧ isOpen (props f) = true.
Proof.
  unfold openCount, countIf. intros Hpos.
  destruct (filter _ _) as [|f fs] eqn:Hfs; [simpl in Hpos; lia|].
  assert (f ∈ filter (fun f => isOpen (props f) = true)
                     (map_to_list (fibers w)).*2) as Hin
    by (rewrite Hfs; left).
  apply list_elem_of_filter in Hin as [Ho [i Hi]%elem_of_fibers].
  by exists i, f.
Qed.

Lemma unstacked_open_hidden s0 acts i f :
  unstacked s0 acts →
  fibers (run (init s0) acts) !! i = Some f → isOpen (props f) = true →
  overflow (host (run (init s0) acts)) = "hidden".
Proof.
  intros Hall Hi Ho. apply (unstacked_from s0).
  - apply Inv_init.
  - done.
  - done.
  - exact Hall.
  - pose proof (countIf_pos (fun f => isOpen (props f)) _ _ _ Hi Ho) as Hp.
    unfold unstacked in Hall.
    eapply Forall_forall in Hall; [|apply trace_last].
    unfold openCount in *. lia.
Qed.

Lemma locked_means_open s0 acts :
  overflowWrites (host (run (init s0) acts)) ≠ [] →
  overflow (host (run (init s0) acts)) = "hidden" →
  ∃ i f, fibers (run (init s0) acts) !! i = Some f
         ∧ isOpen (props f) = true.
Proof.
  intros Hw Hov. pose proof (ovOK_run s0 acts) as Hok.
  pose proof (lastWriteOK_run s0 acts) as Hlast.
  unfold ovOK in Hok. unfold lastWriteOK in Hlast.
  destruct (last (overflowWrites (host (run (init s0) acts))))
    as [x|] eqn:Hx; [|by apply last_None in Hx].
  simpl in Hok. rewrite Hov in Hok. subst x.
  destruct (Hlast _ eq_refl) as [?|[_ Hpos]]; [done|].
  by apply open_exists.
Qed.
End page_lock.




(** C3, as the specification words it, fails: when the modal of the usage
    guide opens, the scroll lock is not taken first and the content is not
    mounted last; and with two modals open, once the second is closed the
    first still has its listener registered and its content in the body
    while the overflow style is ['unset']. *)
Lemma transition_order_fails :
  ¬ OpenOrder "auto" demo
  ∧ ¬ NeverWithoutLock (run (init "auto") stackedThenOne).
Proof.
  split.
  - intros H. vm_compute in H. discriminate.
  - intros [H _].
    assert (keydown (host (run (init "auto") stackedThenOne)) ≠ []) as Hk
      by (vm_compute; discriminate).
    apply H in Hk. vm_compute in Hk. discriminate.
Qed.

(** C3, amended: within one opening transition (by mounting or by
    re-rendering a closed instance) the code first routes the content to
    the body, then registers the key listener if the instance dismisses on
    Escape, then sets the overflow style to ['hidden']; within one closing
    transition (by re-rendering or by unmounting an open instance) it
    removes the content, then the key listener, then sets the overflow
    style to ['unset'].  Between transitions, as long as no two instances
    are ever open together, a key listener is registered only while the
    overflow style is ['hidden'], and content is in the body only while
    the overflow style is ['hidden']. *)
Theorem transition_order (s0 : string) (acts : list Action) :
  let w := run (init s0) acts in
  (∀ p, isOpen p = true →
     log (host (step w (Mount p)))
     = log (host w) ++ openEffects (nextId w) p (host w))
  ∧ (∀ i f p,
       fibers w !! i = Some f → isOpen (props f) = false → isOpen p = true →
       log (host (step w (Render i p)))
       = log (host w) ++ openEffects i p (host w))
  ∧ (∀ i f p,
       fibers w !! i = Some f → isOpen (props f) = true → isOpen p = false →
       log (host (step w (Render i p))) = log (host w) ++ closeEffects i f)
  ∧ (∀ i f,
       fibers w !! i = Some f → isOpen (props f) = true →
       log (host (step w (Unmount i))) = log (host w) ++ closeEffects i f)
  ∧ (unstacked s0 acts → NeverWithoutLock w).
Proof.
  intros w. pose proof (Inv_run s0 acts) as HI. fold w in HI.
  split_and!.
  - intros p Ho. cbn [step]. rewrite (mount_log _ _ HI).
    rewrite (escapeClosure_open _ _ _ Ho). unfold Modal, openEffects.
    by rewrite Ho.
  - intros i f p Hi Hf Ho. cbn [step]. rewrite (render_log _ _ _ _ HI Hi).
    destruct (inv_fiber _ HI _ _ Hi) as [Hsc Hec].
    rewrite escapeDeps_open by congruence.
    rewrite (escapeClosure_open _ _ _ Ho). unfold Modal, openEffects.
    destruct (escapeCleanup f) as [l|]; [destruct Hec; congruence|].
    unfold scrollDeps. rewrite Hsc, Hf, Ho. simpl.
    by destruct (shouldDismissOnEscape p).
  - intros i f p Hi Hf Ho. cbn [step]. rewrite (render_log _ _ _ _ HI Hi).
    destruct (inv_fiber _ HI _ _ Hi) as [Hsc Hec].
    rewrite escapeDeps_open by congruence.
    unfold Modal, closeEffects, escapeClosure, scrollDeps.
    rewrite Hsc, Hf, Ho. simpl. by rewrite ?app_nil_r.
  - intros i f Hi Hf. cbn [step]. rewrite (unmount_log _ _ _ HI Hi).
    destruct (inv_fiber _ HI _ _ Hi) as [Hsc Hec].
    unfold closeEffects. by rewrite Hsc, Hf.
  - intros Hun. split.
    + intros Hk. destruct (keydown (host w)) as [|l ls] eqn:Hkd; [done|].
      assert (l ∈ keydown (host w)) as Hl by (rewrite Hkd; left).
      destruct (listener_fiber _ _ HI Hl) as (f & Hf & Hc).
      destruct (inv_fiber _ HI _ _ Hf) as [_ Hec]. rewrite Hc in Hec.
      destruct Hec as (Ho & _).
      by apply (unstacked_open_hidden s0 acts (l_owner l) f).
    + intros Hb.
      destruct (bodyChildren (host w)) as [|[i c] cs] eqn:Hbd; [done|].
      assert ((i, c) ∈ bodyChildren (host w)) as Hin by (rewrite Hbd; left).
      destruct (body_elem _ _ _ HI Hin) as (f & Hf & Ho & _).
      by apply (unstacked_open_hidden s0 acts i f).
Qed.

Lemma transition_order_witness :
  (isOpen demo = true
   ∧ log (host (step (run (init "auto") []) (Mount demo)))
     = [EvRoute 0; EvListen (mkListener 0 0 7); EvOverflow "hidden"])
  ∧ (isOpen (setOpen false demo) = false
     ∧ log (host (step (run (init "auto") [Mount demo])
                       (Render 0 (setOpen false demo))))
       = [EvRoute 0; EvListen (mkListener 0 0 7); EvOverflow "hidden";
          EvUnroute 0; EvUnlisten (mkListener 0 0 7); EvOverflow "unset"])
  ∧ (unstacked "auto" [Mount demo]
     ∧ NeverWithoutLock (run (init "auto") [Mount demo])).
Proof.
  assert (unstacked "auto" [Mount demo]) as Hun by repeat constructor.
  split; [|split]; (split; [first [reflexivity | exact Hun]|]).
  - exact (proj1 (transition_order "auto" []) demo eq_refl).
  - exact (proj1 (proj2 (proj2 (transition_order "auto" [Mount demo])))
             0 (mkFiber demo (Some (mkListener 0 0 7)) true)
             (setOpen false demo) eq_refl eq_refl eq_refl).
  - exact (proj2 (proj2 (proj2 (proj2
             (transition_order "auto" [Mount demo])))) Hun).
Defined.

(** C4, as the specification words it, fails: with two modals open, once
    the second is closed the first is still open but the overflow style
    is ['unset']: an open instance without the scroll lock. *)
Lemma lock_and_listener_fails :
  ¬ LockAndListenerIffOpen (run (init "auto") stackedThenOne).
Proof.
  intros H.
  destruct (H 0 (mkFiber demo (Some (mkListener 0 0 7)) true) eq_refl)
    as [H1 _].
  specialize (H1 eq_refl). vm_compute in H1. discriminate.
Qed.

(** C4, amended: between transitions, an instance has a key listener
    registered exactly when it is open and dismisses on Escape; every
    registered listener belongs to a mounted instance; the number of
    registered listeners equals the number of open instances that
    dismiss on Escape.  As long as no two instances are ever open
    together, the overflow style is ['hidden'] while an instance is open;
    and whenever the component has left the overflow style at ['hidden'],
    some instance is open. *)
Theorem listener_hygiene (s0 : string) (acts : list Action) :
  let w := run (init s0) acts in
  (∀ i f, fibers w !! i = Some f →
     (∃ l, l ∈ keydown (host w) ∧ l_owner l = i)
     ↔ isOpen (props f) = true ∧ shouldDismissOnEscape (props f) = true)
  ∧ (∀ l, l ∈ keydown (host w) → is_Some (fibers w !! l_owner l))
  ∧ length (keydown (host w)) = openEscapeCount w
  ∧ (unstacked s0 acts →
     ∀ i f, fibers w !! i = Some f → isOpen (props f) = true →
            overflow (host w) = "hidden")
  ∧ (overflowWrites (host w) ≠ [] → overflow (host w) = "hidden" →
     ∃ i f, fibers w !! i = Some f ∧ isOpen (props f) = true).
Proof.
  intros w. pose proof (Inv_run s0 acts) as HI. fold w in HI.
  split_and!.
  - intros i f Hi. destruct (inv_fiber _ HI _ _ Hi) as [Hsc Hec]. split.
    + intros (l & Hl & <-).
      destruct (listener_fiber _ _ HI Hl) as (g & Hg & Hc).
      assert (g = f) as -> by congruence.
      rewrite Hc in Hec. by destruct Hec as (? & ? & _).
    + intros [Ho He]. destruct (escapeCleanup f) as [l|] eqn:Hc.
      * exists l. split; [by eapply held_in_keydown|].
        by destruct Hec as (_ & _ & ? & _).
      * by rewrite Ho, He in Hec.
  - intros l Hl. destruct (listener_fiber _ _ HI Hl) as (f & Hf & _).
    by exists f.
  - by apply keydown_count.
  - intros Hun i f Hi Ho. by apply (unstacked_open_hidden s0 acts i f).
  - apply locked_means_open.
Qed.

Lemma listener_hygiene_witness :
  (fibers (run (init "auto") [Mount demoNoEscape]) !! 0
   = Some (mkFiber demoNoEscape None true)
   ∧ unstacked "auto" [Mount demoNoEscape]
   ∧ overflow (host (run (init "auto") [Mount demoNoEscape])) = "hidden")
  ∧ length (keydown (host (run (init "auto")
                             [Mount demo; Mount demoNoEscape]))) = 1
  ∧ (overflowWrites (host (run (init "auto") [Mount demo; Mount demo]))
     = ["hidden"; "hidden"]
     ∧ ∃ i f, fibers (run (init "auto") [Mount demo; Mount demo]) !! i
              = Some f
              ∧ isOpen (props f) = true).
Proof.
  assert (unstacked "auto" [Mount demoNoEscape]) as Hun
    by repeat constructor.
  split; [split_and!; [reflexivity|exact Hun|]|split; [|split]].
  - exact (proj1 (proj2 (proj2 (proj2
             (listener_hygiene "auto" [Mount demoNoEscape])))) Hun
             0 (mkFiber demoNoEscape None true) eq_refl eq_refl).
  - exact (proj1 (proj2 (proj2
             (listener_hygiene "auto" [Mount demo; Mount demoNoEscape])))).
  - reflexivity.
  - refine (proj2 (proj2 (proj2 (proj2
              (listener_hygiene "auto" [Mount demo; Mount demo])))) _ eq_refl).
    vm_compute. discriminate.
Defined.

End Modal.

(** * Properties of the responsive utilities *)

Module ResponsiveFacts.
Import Responsive.

(** X18: the breakpoints that a window width matches are always a
    leading run of base, sm, md, lg, xl, 2xl (mobile first: a width that
    matches a breakpoint matches every smaller one); in a browser the
    base breakpoint always matches, and without a [window] none does. *)
Theorem breakpoint_leading_run (window : option N) :
  ∃ k, useResponsiveBreakpoint window <$> allBreakpoints
       = (replicate k true ++ replicate (6 - k) false)%list
       ∧ (k ≤ 6)%nat
       ∧ (k = 0%nat ↔ window = None).
Proof.
  destruct window as [width|];
    [|exists 0%nat; split_and!; [reflexivity|lia|done]].
  unfold allBreakpoints, useResponsiveBreakpoint, breakpoints.
  cbn [fmap list_fmap].
  destruct (N.leb_spec 0 width), (N.leb_spec 640 width),
    (N.leb_spec 768 width), (N.leb_spec 1024 width),
    (N.leb_spec 1280 width), (N.leb_spec 1536 width);
    try lia;
    [exists 6%nat | exists 5%nat | exists 4%nat | exists 3%nat
    | exists 2%nat | exists 1%nat];
    (split; [reflexivity|]); (split; [lia|]); split; intros; by try lia.
Qed.

(** X19: [buildResponsiveClasses] ignores the [base] entry of its second
    argument and treats an empty entry like a missing one; with nothing
    left to add the result is the first argument unchanged, and with all
    five other entries given it is the six classes separated by single
    spaces, in the order sm, md, lg, xl, 2xl. *)
Theorem buildResponsiveClasses_entries (b : string)
    (r : ResponsiveClasses) :
  buildResponsiveClasses b r
  = buildResponsiveClasses b
      (mkResponsive None (dropEmpty (at_sm r)) (dropEmpty (at_md r))
         (dropEmpty (at_lg r)) (dropEmpty (at_xl r)) (dropEmpty (at_2xl r)))
  ∧ (truthy (at_sm r) = false → truthy (at_md r) = false →
     truthy (at_lg r) = false → truthy (at_xl r) = false →
     truthy (at_2xl r) = false →
     buildResponsiveClasses b r = b)
  ∧ (∀ x s m l e z,
       truthy (Some s) = true → truthy (Some m) = true →
       truthy (Some l) = true → truthy (Some e) = true →
       truthy (Some z) = true →
       buildResponsiveClasses b
         (mkResponsive x (Some s) (Some m) (Some l) (Some e) (Some z))
       = b ++ " sm:" ++ s ++ " md:" ++ m ++ " lg:" ++ l
           ++ " xl:" ++ e ++ " 2xl:" ++ z).
Proof.
  split_and!.
  - destruct r as [x [[|? ?]|] [[|? ?]|] [[|? ?]|] [[|? ?]|] [[|? ?]|]];
      reflexivity.
  - destruct r as [x s m l e z]. simpl.
    unfold buildResponsiveClasses, pushIf. simpl.
    by intros -> -> -> -> ->; destruct s, m, l, e, z.
  - intros x s m l e z Hs Hm Hl He Hz.
    unfold buildResponsiveClasses, pushIf. simpl at_sm. simpl at_md.
    simpl at_lg. simpl at_xl. simpl at_2xl.
    rewrite Hs, Hm, Hl, He, Hz. reflexivity.
Qed.

Lemma buildResponsiveClasses_entries_witness :
  buildResponsiveClasses "grid"
    (mkResponsive (Some "flex") (Some "") None None None None)
  = "grid"
  ∧ buildResponsiveClasses "p-4"
      (mkResponsive None (Some "p-5") (Some "p-6") (Some "p-8")
         (Some "p-10") (Some "p-12"))
    = "p-4 sm:p-5 md:p-6 lg:p-8 xl:p-10 2xl:p-12".
Proof.
  split.
  - exact (proj1 (proj2 (buildResponsiveClasses_entries "grid"
             (mkResponsive (Some "flex") (Some "") None None None None)))
             eq_refl eq_refl eq_refl eq_refl eq_refl).
  - exact (proj2 (proj2 (buildResponsiveClasses_entries "p-4"
             (mkResponsive None None None None None None)))
             None "p-5" "p-6" "p-8" "p-10" "p-12"
             eq_refl eq_refl eq_refl eq_refl eq_refl).
Defined.

(** X20: [getGridColumns] always emits the mobile class, even for a
    falsy column count such as 0, but drops the tablet and the desktop
    class both when the count is left out and when it is falsy; the
    desktop class does not depend on the tablet one being there. *)
Theorem getGridColumns_shape {number : Type} (toString : number → string)
    (truthyNumber : number → bool)
    (m : number) (t d : option number) :
  let part (prefix : string) (n : option number) : string :=
    match n with
    | Some c => if truthyNumber c
                then " " ++ prefix ++ "grid-cols-" ++ toString c else ""
    | None => ""
    end in
  getGridColumns toString truthyNumber m t d
  = "grid-cols-" ++ toString m ++ part "sm:" t ++ part "md:" d.
Proof.
  intros part. unfold getGridColumns, pushColumns, part.
  assert (∀ x : string, x ++ "" = x) as Hnil.
  { induction x as [|c x IH]; [done|].
    change (String c (x ++ "") = String c x). by rewrite IH. }
  assert (∀ x y z : string, (x ++ y) ++ z = x ++ y ++ z) as Hassoc.
  { induction x as [|c x IH]; intros y z; [done|].
    change (String c ((x ++ y) ++ z) = String c (x ++ y ++ z)).
    by rewrite IH. }
  destruct t as [t|], d as [d|]; try destruct (truthyNumber t);
    try destruct (truthyNumber d); simpl;
    rewrite ?Hnil, ?Hassoc; reflexivity.
Qed.

End ResponsiveFacts.
